(** * google-assistant-helper: the audio buffer processor, the conversation
      writer and the relay dispatcher, embedded from
      [google-assistant-helper.js] and [cast.js]. *)

From Stdlib Require Import ZArith QArith Lia Strings.Byte.
From stdpp Require Import base option list strings gmap pretty.

Open Scope Z_scope.

(** ** Outcomes of JavaScript code that may throw *)

Inductive error : Type :=
  | RangeError            (* ERR_OUT_OF_RANGE of Buffer.readInt16LE *)
  | ChunkingImpossible    (* the string thrown by chunkBuffer *)
  | TypeError.            (* property access on undefined *)

(** [OutOfFuel] never shows for the loops below when they are started by
    their entry points; it only makes the loop functions structural. *)
Inductive outcome (A : Type) : Type :=
  | Returned (a : A)
  | Thrown (e : error)
  | OutOfFuel.
Arguments Returned {A} a.
Arguments Thrown {A} e.
Arguments OutOfFuel {A}.

Definition obind {A B} (m : outcome A) (k : A → outcome B) : outcome B :=
  match m with
  | Returned a => k a
  | Thrown e => Thrown e
  | OutOfFuel => OutOfFuel
  end.

Notation "x ←! m ;; k" := (obind m (fun x => k))
  (at level 100, m at next level, right associativity).

(** ** Node.js Buffer *)

Module Buffer.

(** A Buffer is its sequence of bytes. *)
Abbreviation t := (list byte).

(** buf.length *)
Definition len (buf : t) : Z := Z.of_nat (length buf).

Definition byte_val (b : byte) : Z := Z.of_N (Byte.to_N b).

(** Two's complement reading of a 16-bit pattern. *)
Definition to_int16 (u : Z) : Z := if 32768 <=? u then u - 65536 else u.

(** buf.readInt16LE(offset): throws unless 0 <= offset <= length - 2. *)
Definition readInt16LE (buf : t) (offset : Z) : outcome Z :=
  if (offset <? 0) || (len buf - 2 <? offset) then Thrown RangeError
  else
    match buf !! Z.to_nat offset, buf !! S (Z.to_nat offset) with
    | Some lo, Some hi => Returned (to_int16 (byte_val lo + 256 * byte_val hi))
    | _, _ => Thrown RangeError
    end.

(** Index normalisation of buf.slice: negative indexes count from the
    end, and everything is clamped to [0, length]. *)
Definition clamp (buf : t) (k : Z) : nat :=
  if k <? 0 then Z.to_nat (Z.max (len buf + k) 0)
  else Z.to_nat (Z.min k (len buf)).

(** buf.slice(start, end) *)
Definition slice (buf : t) (start end_ : Z) : t :=
  take (clamp buf end_ - clamp buf start)%nat (drop (clamp buf start) buf).

(** buf.slice(start) *)
Definition slice_from (buf : t) (start : Z) : t :=
  slice buf start (len buf).

(** Buffer.concat(list) *)
Definition concat (bufs : list t) : t := mjoin bufs.

End Buffer.

(** ** Audio buffer processing (google-assistant-helper.js) *)

Module Audio.

(** The variables of the loop of truncateSilences. [i] is the value
    the loop test sees, that is after the [i += 2] of the round before. *)
Record ts_state : Type := TsState {
  ts_buf : Buffer.t;
  ts_i : Z;
  ts_start : Z;
  ts_end : option Z
}.

(** One round of the body of the for loop, followed by [i += 2]. *)
Definition ts_body (maxSamples threshold : Z) (s : ts_state) : outcome ts_state :=
  v ←! Buffer.readInt16LE (ts_buf s) (ts_i s) ;;
  if v <? threshold then
    let start := match ts_end s with None => ts_i s | Some _ => ts_start s end in
    Returned (TsState (ts_buf s) (ts_i s + 2) start (Some (ts_i s)))
  else
    match ts_end s with
    | Some end_ =>
        if maxSamples <? end_ - ts_start s + 2 then
          let deleteCount := end_ - ts_start s - maxSamples + 2 in
          let buf := Buffer.concat [Buffer.slice (ts_buf s) 0 (ts_start s);
                                    Buffer.slice_from (ts_buf s) (ts_start s + deleteCount)] in
          Returned (TsState buf (ts_i s - deleteCount + 2) (ts_start s) None)
        else
          Returned (TsState (ts_buf s) (ts_i s + 2) (ts_start s) None)
    | None => Returned (TsState (ts_buf s) (ts_i s + 2) (ts_start s) None)
    end.

Fixpoint ts_loop (fuel : nat) (maxSamples threshold : Z) (s : ts_state) : outcome Buffer.t :=
  match fuel with
  | O => OutOfFuel
  | S fuel' =>
      if ts_i s <? Buffer.len (ts_buf s) then
        s' ←! ts_body maxSamples threshold s ;;
        ts_loop fuel' maxSamples threshold s'
      else Returned (ts_buf s)
  end.

(** Rounds that the loop can need on a buffer of [n] bytes: a deletion
    shortens the buffer and may move [i] back, a round without one
    advances [i]. *)
Definition loop_fuel (n : nat) : nat := S (n * n + n).

(** function truncateSilences(buf, maxSamples, threshold) *)
Definition truncateSilences (buf : Buffer.t) (maxSamples threshold : Z) : outcome Buffer.t :=
  ts_loop (loop_fuel (length buf)) maxSamples threshold (TsState buf 0 0 None).

(** The variables of the loop of chunkBuffer. [endMarks.push] appends at
    the end of the list. *)
Record cb_state : Type := CbState {
  cb_bufs : list Buffer.t;
  cb_buf : Buffer.t;
  cb_i : Z;
  cb_start : Z;
  cb_end : option Z;
  cb_endMarks : list Z
}.

(** One round of the body of the for loop, followed by [i += 2]. The
    assignment [end = null] is inside the test on the length of the
    window, so a window that is too short stays open. *)
Definition cb_body (minSamples maxLength threshold : Z) (s : cb_state) : outcome cb_state :=
  v ←! Buffer.readInt16LE (cb_buf s) (cb_i s) ;;
  if v <? threshold then
    let start := match cb_end s with None => cb_i s | Some _ => cb_start s end in
    Returned (CbState (cb_bufs s) (cb_buf s) (cb_i s + 2) start (Some (cb_i s)) (cb_endMarks s))
  else
    match cb_end s with
    | Some end_ =>
        if minSamples <? end_ - cb_start s + 2 then
          if cb_i s <? maxLength then
            Returned (CbState (cb_bufs s) (cb_buf s) (cb_i s + 2) (cb_start s) None
                              (cb_endMarks s ++ [cb_i s]))
          else
            match last (cb_endMarks s) with
            | None => Thrown ChunkingImpossible
            | Some mark =>
                Returned (CbState (cb_bufs s ++ [Buffer.slice (cb_buf s) 0 mark])
                                  (Buffer.slice_from (cb_buf s) mark)
                                  (0 + 2) 0 None [])
            end
        else
          Returned (CbState (cb_bufs s) (cb_buf s) (cb_i s + 2) (cb_start s) (cb_end s)
                            (cb_endMarks s))
    | None =>
        Returned (CbState (cb_bufs s) (cb_buf s) (cb_i s + 2) (cb_start s) None (cb_endMarks s))
    end.

Fixpoint cb_loop (fuel : nat) (minSamples maxLength threshold : Z) (s : cb_state)
  : outcome (list Buffer.t) :=
  match fuel with
  | O => OutOfFuel
  | S fuel' =>
      if cb_i s <? Buffer.len (cb_buf s) then
        s' ←! cb_body minSamples maxLength threshold s ;;
        cb_loop fuel' minSamples maxLength threshold s'
      else Returned (cb_bufs s ++ [cb_buf s])
  end.

(** function chunkBuffer(buf, minSamples, maxLength, threshold) *)
Definition chunkBuffer (buf : Buffer.t) (minSamples maxLength threshold : Z)
  : outcome (list Buffer.t) :=
  cb_loop (loop_fuel (length buf)) minSamples maxLength threshold
          (CbState [] buf 0 0 None []).

End Audio.

(** ** The writes of startConversation (google-assistant-helper.js) *)

Module Conversation.

(** What conversation.write receives: a Buffer, or the Int16Array
    [silence]. *)
Inductive written : Type :=
  | WBuffer (b : Buffer.t)
  | WInt16Array (elements : list Z).

(** const silence = new Int16Array(32000) *)
Definition silence : list Z := replicate (Z.to_nat 32000) 0.

(** for (let i = 0; i < buf.length; i += 16000)
      conversation.write(buf.slice(i, i+16000 < buf.length ? i+16000 : buf.length)) *)
Fixpoint write_frames (fuel : nat) (buf : Buffer.t) (i : Z) : outcome (list Buffer.t) :=
  match fuel with
  | O => OutOfFuel
  | S fuel' =>
      if i <? Buffer.len buf then
        let frame :=
          Buffer.slice buf i (if i + 16000 <? Buffer.len buf then i + 16000 else Buffer.len buf) in
        rest ←! write_frames fuel' buf (i + 16000) ;;
        Returned (frame :: rest)
      else Returned []
  end.

(** The tail of startConversation: what is written to the conversation
    when it starts. [buf] is None for null or undefined (a Buffer
    object, even an empty one, is truthy); [continued] is false when the
    caller passes no sixth argument. *)
Definition startConversation_writes (buf : option Buffer.t) (continued : bool)
  : outcome (list written) :=
  match buf with
  | Some b =>
      if continued then
        frames ←! write_frames (S (length b)) b 0 ;;
        Returned ((WBuffer <$> frames) ++ [WInt16Array silence])
      else Returned []
  | None => Returned []
  end.

End Conversation.

(** ** JavaScript values as JSON.parse and the handlers see them *)

Module Js.

(** A double that came out of JSON.parse: never NaN. *)
Inductive number : Type :=
  | Integral (z : Z)          (* finite, integral; 0 stands for +0 and -0 *)
  | Fractional (q : Q)        (* finite, not integral *)
  | Infinite (negative : bool).

#[local] Unset Elimination Schemes.
Inductive value : Type :=
  | Undefined
  | Null
  | Bool (b : bool)
  | Num (n : number)
  | Str (s : string)
  | Arr (elements : list value)
  | Obj (fields : list (string * value)).
#[local] Set Elimination Schemes.

(** v == null *)
Definition is_nullish (v : value) : bool :=
  match v with Undefined | Null => true | _ => false end.

(** ToBoolean, as in [if (v)], [!v] and [v && ...] *)
Definition truthy (v : value) : bool :=
  match v with
  | Undefined | Null => false
  | Bool b => b
  | Num (Integral z) => negb (z =? 0)
  | Num _ => true
  | Str s => negb (String.eqb s EmptyString)
  | Arr _ | Obj _ => true
  end.

(** v === "literal" *)
Definition strict_eq_str (v : value) (s : string) : bool :=
  match v with Str s' => String.eqb s' s | _ => false end.

(** v === undefined *)
Definition is_undefined (v : value) : bool :=
  match v with Undefined => true | _ => false end.

(** Number.isInteger(v) *)
Definition isInteger (v : value) : bool :=
  match v with Num (Integral _) => true | _ => false end.

(** v >= 0 for a number v (the handlers compare only after
    Number.isInteger(v) held). *)
Definition ge_zero (v : value) : bool :=
  match v with
  | Num (Integral z) => 0 <=? z
  | Num (Fractional q) => Qle_bool 0 q
  | Num (Infinite negative) => negb negative
  | _ => false
  end.

(** v.name for the property names the handlers read (languageCode,
    ssmlGender, name): own properties of an object that JSON.parse
    built, where a repeated key keeps its last value; undefined on every
    other value. *)
Definition get (v : value) (name : string) : value :=
  match v with
  | Obj fields =>
      fold_left (fun acc kv => if String.eqb (fst kv) name then snd kv else acc)
                fields Undefined
  | _ => Undefined
  end.

Definition join (sep : string) (parts : list string) : string :=
  match parts with
  | [] => EmptyString
  | p :: ps => fold_left (fun acc q => acc +:+ sep +:+ q) ps p
  end.

(** Whether the object that JSON.parse built from [fields] has an own
    property called [name]. *)
Definition has_own (fields : list (string * value)) (name : string) : bool :=
  existsb (fun kv => String.eqb (fst kv) name) fields.

Section ToString.
(** Number::toString, left to the host. *)
Variable number_to_string : number → string.

(** ToString(v), the conversion of template literals, of [+] with a
    string and of property keys; None when it throws a TypeError. An
    object is converted by its toString method: an object with an own
    property toString has a JSON value there, which cannot be called,
    and valueOf gives no primitive either, so the conversion throws;
    the other objects inherit the method of Object.prototype. An array
    joins the conversions of its elements. *)
Fixpoint ToString (v : value) : option string :=
  match v with
  | Undefined => Some "undefined"
  | Null => Some "null"
  | Bool true => Some "true"
  | Bool false => Some "false"
  | Num n => Some (number_to_string n)
  | Str s => Some s
  | Arr elements =>
      join "," <$> mapM (fun e => match e with
                                  | Undefined | Null => Some EmptyString
                                  | _ => ToString e
                                  end) elements
  | Obj fields =>
      if has_own fields "toString" then None else Some "[object Object]"
  end.
End ToString.

(** The names every plain object inherits from Object.prototype. *)
Definition object_prototype_keys : list string :=
  ["constructor"; "__proto__"; "hasOwnProperty"; "isPrototypeOf";
   "propertyIsEnumerable"; "toLocaleString"; "toString"; "valueOf";
   "__defineGetter__"; "__defineSetter__"; "__lookupGetter__";
   "__lookupSetter__"].

(** obj[key] on a plain object used as a map from names to [A]. *)
Inductive member (A : Type) : Type :=
  | Own (a : A)       (* a configured entry *)
  | Inherited         (* an inherited member: truthy, without
                         any of the entry's fields *)
  | Missing.          (* undefined *)
Arguments Own {A} a.
Arguments Inherited {A}.
Arguments Missing {A}.

Definition obj_get {A} (m : gmap string A) (key : string) : member A :=
  match m !! key with
  | Some a => Own a
  | None => if bool_decide (key ∈ object_prototype_keys) then Inherited else Missing
  end.

End Js.

(** ** The Chromecast controller (cast.js) *)

Module Cast.

Definition PLAY : string := "PLAY".
Definition PAUSE : string := "PAUSE".
Definition STOP : string := "STOP".
Definition SEEK : string := "SEEK".

(** commandObj, of the form {type: "SEEK", currentTime: 60};
    currentTime is undefined when the property was never set. *)
Record commandObj : Type := CommandObj {
  type : Js.value;
  currentTime : Js.value
}.

(** The object chromecasts: its own properties, and the device that an
    advertisement under the name __proto__ made its prototype (None for
    Object.prototype, as {} has it). The values are objects, so such an
    assignment always goes to the setter of Object.prototype. *)
Record devices : Type := Devices {
  advertised : gmap string (string * Z);
  inherited : option (string * Z)
}.

Definition no_devices : devices := Devices ∅ None.

(** chromecasts[name] = {"host": ..., "port": ...} *)
Definition add_device (ds : devices) (name : string) (d : string * Z) : devices :=
  if String.eqb name "__proto__" && bool_decide (advertised ds !! name = None)
  then Devices (advertised ds) (Some d)
  else Devices (<[name := d]> (advertised ds)) (inherited ds).

(** chromecasts[name]: an own property; or the prototype itself under
    the name __proto__; or what the prototype has under the name (a
    device has its host, a string, and its port, a number, and inherits
    the members of Object.prototype). Missing stands for undefined and
    for every other value that is not truthy. *)
Definition device (ds : devices) (name : string) : Js.member (string * Z) :=
  match advertised ds !! name with
  | Some d => Js.Own d
  | None =>
      match inherited ds with
      | Some d =>
          if String.eqb name "__proto__" then Js.Own d
          else if String.eqb name "host" then
            if String.eqb (fst d) EmptyString then Js.Missing else Js.Inherited
          else if String.eqb name "port" then
            if snd d =? 0 then Js.Missing else Js.Inherited
          else if bool_decide (name ∈ Js.object_prototype_keys) then Js.Inherited
          else Js.Missing
      | None =>
          if bool_decide (name ∈ Js.object_prototype_keys) then Js.Inherited
          else Js.Missing
      end
  end.

(** The prototype of the object players: Object.prototype; the player
    that was assigned to players["__proto__"]; or none, after null was
    assigned there. *)
Inductive players_prototype : Type :=
  | ObjectPrototype
  | PlayerPrototype
  | NullPrototype.

(** The object players: its own properties (Some () for a player, None
    for null) and its prototype. *)
Record players : Type := Players {
  held : gmap string (option unit);
  prototype : players_prototype
}.

Definition no_players : players := Players ∅ ObjectPrototype.

(** players[name] = v, for a player or null. Under the name __proto__
    the assignment goes to the setter of Object.prototype and replaces
    the prototype, unless the setter is out of reach (the prototype is
    null) or the property is an own one by now; the player, made by a
    constructor of the media library, is taken to inherit from
    Object.prototype and to have writable data properties only, like the
    objects of the sources. *)
Definition set_player (ps : players) (name : string) (v : option unit) : players :=
  if String.eqb name "__proto__"
     && bool_decide (held ps !! name = None)
     && match prototype ps with NullPrototype => false | _ => true end
  then Players (held ps) (match v with
                          | Some _ => PlayerPrototype
                          | None => NullPrototype
                          end)
  else Players (<[name := v]> (held ps)) (prototype ps).

(** What players[name] reads. *)
Inductive player_read : Type :=
  | ThePlayer           (* a player *)
  | Falsy               (* null or undefined *)
  | OfObjectPrototype   (* a member of Object.prototype: truthy, without
                           play, pause, stop or seek *)
  | OfPlayer.           (* what the player that is the prototype of
                           players has under the name: up to the media
                           library, which is not in the sources *)

Definition player_of (ps : players) (name : string) : player_read :=
  match held ps !! name with
  | Some (Some _) => ThePlayer
  | Some None => Falsy
  | None =>
      match prototype ps with
      | ObjectPrototype =>
          if bool_decide (name ∈ Js.object_prototype_keys) then OfObjectPrototype
          else Falsy
      | PlayerPrototype =>
          if String.eqb name "__proto__" then ThePlayer else OfPlayer
      | NullPrototype => Falsy
      end
  end.

(** What a call of control ends in. *)
Inductive controlled : Type :=
  | InvalidServiceName        (* logged, nothing sent *)
  | NoPlayer                  (* logged, nothing sent *)
  | PlayerPlay
  | PlayerPause
  | PlayerStop
  | PlayerSeek (time : Js.value)
  | InvalidSeek               (* logged, nothing sent *)
  | NotAPlayer                (* the call is on a member of
                                 Object.prototype: TypeError *)
  | Ignored                   (* a type that is none of the four *)
  | UpToLibrary.              (* players[serviceName] is read from the
                                 player that is the prototype *)

(** function control(serviceName, commandObj, cb) *)
Definition control (chromecasts : devices) (players : players)
    (serviceName : option string) (c : commandObj) : controlled :=
  let serviceName := default "undefined" serviceName in
  match device chromecasts serviceName with
  | Js.Missing => InvalidServiceName
  | _ =>
      match player_of players serviceName with
      | Falsy => NoPlayer
      | OfPlayer => UpToLibrary
      | player =>
          let call (r : controlled) : controlled :=
            match player with ThePlayer => r | _ => NotAPlayer end in
          if Js.strict_eq_str (type c) PLAY then call PlayerPlay
          else if Js.strict_eq_str (type c) PAUSE then call PlayerPause
          else if Js.strict_eq_str (type c) STOP then call PlayerStop
          else if Js.strict_eq_str (type c) SEEK then
            if negb (Js.truthy (currentTime c))
               || negb (Js.isInteger (currentTime c))
               || negb (Js.ge_zero (currentTime c))
            then InvalidSeek
            else call (PlayerSeek (currentTime c))
          else Ignored
      end
  end.

End Cast.

(** ** The relay dispatcher: router.post (google-assistant-helper.js) *)

Module Relay.
Import Js.

(** What the host provides. *)
Record Host : Type := {
  sha1_hex : string → string;          (* crypto sha1 digest, in hex *)
  basename : string → string;          (* path.basename *)
  ip_address : string;                 (* ip.address() *)
  number_to_string : number → string   (* Number::toString *)
}.

(** config.json *)
Record Relay : Type := { on : bool; route : string }.
Record BroadcastSound : Type := { bs_path : string; bs_format : string }.
Record CastSound : Type := { cs_path : string; cs_contentType : string }.
Record User : Type := { relayKey : string; chromecastFriendlyName : option string }.

Record Config : Type := {
  broadcast : Relay;
  broadcastAudio : Relay;
  broadcastAudio_sounds : gmap string BroadcastSound;
  custom : Relay;
  chromecastAudio : Relay;
  chromecastAudio_sounds : gmap string CastSound;
  chromecastTTS : Relay;
  cachePath : string;
  defaultLanguage : string;
  defaultGender : string;
  chromecastURL : Relay;
  chromecastControl : Relay;
  staticServer_port : N;
  staticServer_route : string;
  users : gmap string User
}.

(** relayRoutes[k] != null: the route-building loop fills relayRoutes[k]
    for the relays that are on (and leaves the process when one of them
    has no route). *)
Definition relayRoute (r : Relay) : option string :=
  if on r then Some (route r) else None.

(** relayRoutes[k] != null && req.path === config.relays.k.route *)
Definition on_route (r : Relay) (path : string) : bool :=
  match relayRoute r with
  | Some _ => String.eqb path (route r)
  | None => false
  end.

(** The request: req.path and the fields of req.body that the handler
    reads (undefined when absent). *)
Record Request : Type := {
  path : string;
  command : value;
  user : value;
  body_relayKey : value;
  delayInSecs : value;
  voice : value;
  contentType : value;
  body_currentTime : value;
  broadcastAudioResponse : value
}.

Inductive body : Type :=
  | Result (result : string)      (* {"result": ...} *)
  | UncaughtError (e : error).    (* the handler threw: Express answers *)

Record Response : Type := { status : Z; sent : body }.

(** delay == null ? 0 : delay * 1000, the product left as it is. *)
Inductive timeout : Type :=
  | Millis0
  | SecsTimes1000 (delay : value).

Definition timeout_of (delay : value) : timeout :=
  if is_nullish delay then Millis0 else SecsTimes1000 delay.

(** The calls inside the setTimeout callbacks. *)
Inductive action : Type :=
  | SendBroadcastAudio (file : string) (user : value) (format : string)
  | CastMedia (friendlyName : option string) (mediaUrl : value) (mediaType : value)
  | CastControl (friendlyName : option string) (ctl : Cast.commandObj)
  | SendTextInput (text : value) (user : value) (broadcastAudioResponse : value)
  | CallbackThrows (e : error).

Inductive effect : Type :=
  | SynthesizeSpeech (text : value) (voice : value) (file : string)
  | SetTimeout (a : action) (t : timeout).

Record handled : Type := { response : Response; effects : list effect }.

Definition respond (code : Z) (result : string) (effs : list effect) : handled :=
  {| response := {| status := code; sent := Result result |}; effects := effs |}.

(** An exception that leaves the handler: Express answers 500. *)
Definition uncaught (e : error) : handled :=
  {| response := {| status := 500; sent := UncaughtError e |}; effects := [] |}.

Section Handler.
Variable host : Host.
Variable config : Config.
(** The files that exist, with their content. *)
Variable fs : gmap string (list byte).

(** ToString(v); None when the conversion throws a TypeError. *)
Definition str (v : value) : option string := ToString (number_to_string host) v.

(** The handler up to the exception that leaves it. *)
Definition or_throws (h : option handled) : handled := default (uncaught TypeError) h.

(** config.users[user] && relayKey === config.users[user].relayKey *)
Definition authorized (user relayKey : value) : option bool :=
  key ← str user;
  Some match obj_get (users config) key with
       | Own u => strict_eq_str relayKey (Relay.relayKey u)
       | Inherited => is_undefined relayKey
       | Missing => false
       end.

(** config.users[user].chromecastFriendlyName, read when the timer
    fires; None when the read throws. *)
Definition friendlyName (user : value) : option (option string) :=
  key ← str user;
  match obj_get (users config) key with
  | Own u => Some (chromecastFriendlyName u)
  | Inherited => Some None
  | Missing => None
  end.

(** () => {cast.cast(config.users[user].chromecastFriendlyName, ...)} *)
Definition cast_media (user mediaUrl mediaType : value) : action :=
  match friendlyName user with
  | Some name => CastMedia name mediaUrl mediaType
  | None => CallbackThrows TypeError
  end.

(** () => {cast.control(config.users[user].chromecastFriendlyName, ctl)} *)
Definition cast_control (user : value) (ctl : Cast.commandObj) : action :=
  match friendlyName user with
  | Some name => CastControl name ctl
  | None => CallbackThrows TypeError
  end.

Definition static_url (file : string) : string :=
  "http://" +:+ ip_address host +:+ ":" +:+ pretty (staticServer_port config)
    +:+ staticServer_route config +:+ "/" +:+ file.

(** req.body.voice ? req.body.voice : {languageCode: ..., ssmlGender: ...} *)
Definition voice_of (req : Request) : value :=
  if truthy (voice req) then voice req
  else Obj [("languageCode", Str (defaultLanguage config));
            ("ssmlGender", Str (defaultGender config))].

(** `${voice.languageCode}_${voice.ssmlGender}_${voice.name}` *)
Definition voiceString (v : value) : option string :=
  languageCode ← str (get v "languageCode");
  ssmlGender ← str (get v "ssmlGender");
  name ← str (get v "name");
  Some (languageCode +:+ "_" +:+ ssmlGender +:+ "_" +:+ name).

(** crypto.createHash('sha1').update(command+voiceString).digest('hex') *)
Definition encodedCommand (req : Request) : option string :=
  voiceString ← voiceString (voice_of req);
  command ← str (command req);
  Some (sha1_hex host (command +:+ voiceString)).

(** The file of the cached speech. *)
Definition cache_file (req : Request) : option string :=
  encodedCommand ← encodedCommand req;
  Some (cachePath config +:+ "/" +:+ encodedCommand +:+ ".mp3").

(** The branches under a good relayKey. Every conversion to a string
    is made where the handler makes it, and the handler throws where
    one of them throws. The log line of the handler has converted
    delayInSecs by then, so that the product delay * 1000, which
    converts it the same way, does not throw. *)
Definition dispatch (req : Request) : handled :=
  let command := command req in
  let user := user req in
  let delay := timeout_of (delayInSecs req) in
  or_throws
    (if on_route (broadcastAudio config) (path req) then
       name ← str command;
       match obj_get (broadcastAudio_sounds config) name with
       | Missing => Some (respond 500 "Server error." [])
       | Own sound =>
           if negb (String.eqb (bs_format sound) "LINEAR16")
           then None   (* the log line reads config.sounds[command] *)
           else
             _ ← str user;
             Some (respond 200 ("Played " +:+ name +:+ " via broadcast.")
                     [SetTimeout (SendBroadcastAudio (bs_path sound) user (bs_format sound))
                        delay])
       | Inherited => None
       end
     else if on_route (chromecastTTS config) (path req) then
       encodedCommand ← encodedCommand req;
       let file := cachePath config +:+ "/" +:+ encodedCommand +:+ ".mp3" in
       text ← str command;
       _ ← str user;
       let synth :=
         match fs !! file with
         | Some _ => []
         | None => [SynthesizeSpeech command (voice_of req) file]
         end in
       Some (respond 200 ("Played " +:+ text +:+ " via Chromecast.")
               (synth ++ [SetTimeout (cast_media user
                                        (Str (static_url (encodedCommand +:+ ".mp3")))
                                        (Str "audio/mp3")) delay]))
     else if on_route (chromecastAudio config) (path req) then
       name ← str command;
       match obj_get (chromecastAudio_sounds config) name with
       | Missing => Some (respond 500 "Server error." [])
       | Own sound =>
           _ ← str user;
           Some (respond 200 ("Played " +:+ name +:+ " via Chromecast.")
                   [SetTimeout (cast_media user
                                  (Str (static_url (basename host (cs_path sound))))
                                  (Str (cs_contentType sound))) delay])
       | Inherited =>
           _ ← str user;
           Some (respond 200 ("Played " +:+ name +:+ " via Chromecast.")
                   [SetTimeout (CallbackThrows TypeError) delay])
       end
     else if on_route (chromecastURL config) (path req) then
       if negb (truthy (contentType req)) then
         Some (respond 500 "Server error, missing contentType." [])
       else
         text ← str command;
         _ ← str (contentType req);
         _ ← str user;
         Some (respond 200 ("Played " +:+ text +:+ " via Chromecast.")
                 [SetTimeout (cast_media user command (contentType req)) delay])
     else if on_route (chromecastControl config) (path req) then
       if truthy command
          && (strict_eq_str command Cast.PLAY
              || strict_eq_str command Cast.PAUSE
              || strict_eq_str command Cast.STOP
              || (strict_eq_str command Cast.SEEK
                  && truthy (body_currentTime req)
                  && isInteger (body_currentTime req)
                  && ge_zero (body_currentTime req)))
       then
         let ctl :=
           Cast.CommandObj command
             (if strict_eq_str command Cast.SEEK then body_currentTime req
              else Undefined) in
         _ ← str user;
         (* command is a string here *)
         text ← str command;
         Some (respond 200 ("Send control request " +:+ text +:+ " via Chromecast.")
                 [SetTimeout (cast_control user ctl) delay])
       else Some (respond 500 "Malfored request." [])
     else
       said ← (if on_route (broadcast config) (path req)
               then text ← str command; Some (Str ("broadcast " +:+ text))
               else Some command);
       text ← str said;
       _ ← str user;
       Some (respond 200 ("Executed " +:+ text)
               [SetTimeout (SendTextInput said user (broadcastAudioResponse req)) delay])).

(** router.post(compositeRoute, function (req, res) {...}). Both log
    lines convert fields of the body to strings before anything is
    answered. *)
Definition post (req : Request) : handled :=
  let command := command req in
  let user := user req in
  let relayKey := body_relayKey req in
  let delay := delayInSecs req in
  if is_nullish command || is_nullish user || is_nullish relayKey then
    let relayKey := if truthy relayKey then Str "[Redacted]" else relayKey in
    or_throws
      (_ ← str command; _ ← str user; _ ← str relayKey;
       Some (respond 400 "Malformed request" []))
  else
    or_throws
      (_ ← str command; _ ← str user; _ ← str delay;
       known ← authorized user relayKey;
       Some (if known : bool then dispatch req else respond 403 "Access denied." [])).

(** The callback of ttsClient.synthesizeSpeech: on an error nothing is
    written; otherwise fs.writeFileSync stores the audio. *)
Definition synthesized (file : string) (answer : option (list byte))
  : gmap string (list byte) :=
  match answer with
  | None => fs
  | Some audioContent => <[file := audioContent]> fs
  end.

End Handler.

End Relay.

(** ** Buffers seen as sequences of 16-bit samples *)

Module Samples.

(** The sample that readInt16LE reads from a low and a high byte. *)
Definition sample_of (p : byte * byte) : Z :=
  Buffer.to_int16 (Buffer.byte_val p.1 + 256 * Buffer.byte_val p.2).

Fixpoint pairs (buf : Buffer.t) : list (byte * byte) :=
  match buf with
  | lo :: hi :: rest => (lo, hi) :: pairs rest
  | _ => []
  end.

Definition flatten (ps : list (byte * byte)) : Buffer.t :=
  ps ≫= (fun p => [p.1; p.2]).

(** The samples at the offsets 0, 2, 4, ... of a buffer. *)
Definition samples (buf : Buffer.t) : list Z := sample_of <$> pairs buf.

(** The invariant of an audio buffer: a whole number of samples. *)
Definition even_length (buf : Buffer.t) : bool := Nat.even (length buf).

(** Little-endian bytes of a sample, to write buffers down. *)
Definition le16 (v : Z) : list byte :=
  let u := v mod 65536 in
  match Byte.of_N (Z.to_N (u mod 256)), Byte.of_N (Z.to_N (u / 256)) with
  | Some lo, Some hi => [lo; hi]
  | _, _ => []
  end.

Definition of_samples (l : list Z) : Buffer.t := l ≫= le16.

(** buf.readInt16LE(i) < threshold *)
Definition silent (threshold : Z) (v : Z) : bool := v <? threshold.

(** The same test on the two bytes of a sample. *)
Definition silent_pair (threshold : Z) (p : byte * byte) : bool :=
  silent threshold (sample_of p).

Section Runs.
Context {A : Type} (quiet : A → bool).

(** Lengths of the silent runs that a non-silent element ends, in
    order; [cur] counts the silent elements since the last non-silent
    one. *)
Fixpoint closed_runs_from (cur : nat) (l : list A) : list nat :=
  match l with
  | [] => []
  | x :: l' =>
      if quiet x then closed_runs_from (S cur) l'
      else match cur with
           | O => closed_runs_from 0 l'
           | _ => cur :: closed_runs_from 0 l'
           end
  end.

(** Length of the silent run that the end of the list ends. *)
Fixpoint trailing_run_from (cur : nat) (l : list A) : nat :=
  match l with
  | [] => cur
  | x :: l' => if quiet x then trailing_run_from (S cur) l' else trailing_run_from 0 l'
  end.

Definition closed_runs (l : list A) : list nat := closed_runs_from 0 l.

(** Lengths of all maximal silent runs. *)
Definition silent_runs (l : list A) : list nat :=
  closed_runs l ++ match trailing_run_from 0 l with O => [] | n => [n] end.

(** What truncateSilences does to a run of whole samples that a
    non-silent sample ends: the run is measured in bytes against
    [maxSamples], and its first samples go. *)
Definition cut (maxSamples : Z) (run : list A) : list A :=
  if maxSamples <? 2 * Z.of_nat (length run)
  then drop (length run - Z.to_nat (maxSamples / 2)) run
  else run.

(** The loop of truncateSilences on whole samples: [run] is the open
    silent window, [rest] what is still to be read. *)
Fixpoint truncate_runs (maxSamples : Z) (run rest : list A) : list A :=
  match rest with
  | [] => run
  | x :: rest' =>
      if quiet x then truncate_runs maxSamples (run ++ [x]) rest'
      else match run with
           | [] => x :: truncate_runs maxSamples [] rest'
           | _ => cut maxSamples run ++ x :: truncate_runs maxSamples [] rest'
           end
  end.
End Runs.

(** Every maximal silent run has at most [n] samples. *)
Definition runs_within (threshold : Z) (n : Z) (buf : Buffer.t) : bool :=
  forallb (fun r => Z.of_nat r <=? n) (silent_runs (silent threshold) (samples buf)).

(** Every silent run that a non-silent sample ends spans at most [n]
    bytes. *)
Definition closed_runs_within_bytes (threshold : Z) (n : Z) (buf : Buffer.t) : bool :=
  forallb (fun r => 2 * Z.of_nat r <=? n) (closed_runs (silent threshold) (samples buf)).

(** Every maximal silent run spans at most [n] bytes. *)
Definition runs_within_bytes (threshold : Z) (n : Z) (buf : Buffer.t) : bool :=
  forallb (fun r => 2 * Z.of_nat r <=? n) (silent_runs (silent threshold) (samples buf)).

Definition all_silent (threshold : Z) (buf : Buffer.t) : bool :=
  forallb (silent threshold) (samples buf).

End Samples.

(** ** Two text-to-speech requests in a row *)

Module Cache.
Import Js Relay.

Definition is_synthesis (e : effect) : bool :=
  match e with SynthesizeSpeech _ _ _ => true | SetTimeout _ _ => false end.

(** Calls of ttsClient.synthesizeSpeech that a request made. *)
Definition synth_calls (h : handled) : nat :=
  length (List.filter is_synthesis (effects h)).

(** The files after the synthesis callbacks of a handled request ran;
    [answer] is None when the synthesis failed, and also stands for a
    callback that has not run yet. *)
Definition after_callbacks (fs : gmap string (list byte)) (h : handled)
    (answer : option (list byte)) : gmap string (list byte) :=
  fold_left (fun fs e =>
               match e with
               | SynthesizeSpeech _ _ file => synthesized fs file answer
               | SetTimeout _ _ => fs
               end) (effects h) fs.

(** Two requests, the second handled after the callbacks of the first. *)
Definition two_posts (host : Host) (config : Config) (fs : gmap string (list byte))
    (req1 req2 : Request) (answer : option (list byte)) : handled * handled :=
  let h1 := post host config fs req1 in
  (h1, post host config (after_callbacks fs h1 answer) req2).

(** The request gets to the chromecastTTS branch of the handler: it has
    its three fields, the log line converts command, user and
    delayInSecs, the relayKey is the one of the user, and the path is
    the route of the relay. *)
Definition reaches_tts (host : Host) (config : Config) (req : Request) : bool :=
  negb (is_nullish (command req)) && negb (is_nullish (user req))
  && negb (is_nullish (body_relayKey req))
  && bool_decide (is_Some (str host (command req)))
  && bool_decide (is_Some (str host (user req)))
  && bool_decide (is_Some (str host (delayInSecs req)))
  && bool_decide (authorized host config (user req) (body_relayKey req) = Some true)
  && negb (on_route (broadcastAudio config) (path req))
  && on_route (chromecastTTS config) (path req).

(** The statement about two requests with the same text and voice: one
    file, and at most one synthesis call. *)
Definition synthesized_once (host : Host) (config : Config) (fs : gmap string (list byte))
    (req1 req2 : Request) (answer : option (list byte)) : Prop :=
  reaches_tts host config req1 = true → reaches_tts host config req2 = true →
  command req1 = command req2 → voice req1 = voice req2 →
  cache_file host config req1 = cache_file host config req2
  ∧ (synth_calls (two_posts host config fs req1 req2 answer).1
     + synth_calls (two_posts host config fs req1 req2 answer).2 ≤ 1)%nat
  ∧ synth_calls (two_posts host config fs req1 req2 answer).2 = 0%nat.

End Cache.

(** ** A configuration and requests to try the handlers on *)

Module Example.
Import Js Relay.

(** Stand-ins for the host functions. *)
Definition host : Host := {|
  sha1_hex := fun s => "sha1(" +:+ s +:+ ")";
  basename := fun s => s;
  ip_address := "192.168.0.2";
  number_to_string := fun n => match n with Integral z => pretty z | _ => "?" end
|}.

(** config.json, with one user and a leading slash on every route. *)
Definition config : Config := {|
  broadcast := {| on := true; route := "/broadcast" |};
  broadcastAudio := {| on := true; route := "/broadcastAudio" |};
  broadcastAudio_sounds :=
    {[ "noisy" := {| bs_path := "audio/foo.lpcm16"; bs_format := "LINEAR16" |} ]};
  custom := {| on := true; route := "/custom" |};
  chromecastAudio := {| on := true; route := "/chromecastAudio" |};
  chromecastAudio_sounds :=
    {[ "noisy" := {| cs_path := "audio/bar.mp3"; cs_contentType := "audio/mp3" |} ]};
  chromecastTTS := {| on := true; route := "/chromecastTTS" |};
  cachePath := "audio";
  defaultLanguage := "en-US";
  defaultGender := "NEUTRAL";
  chromecastURL := {| on := true; route := "/chromecastURL" |};
  chromecastControl := {| on := true; route := "/chromecastControl" |};
  staticServer_port := 25000;
  staticServer_route := "/media";
  users :=
    {[ "global" := {| relayKey := "r3pl4ac3th153x4mpl3n0nc3";
                      chromecastFriendlyName := Some "global" |} ]}
|}.

Definition request (path : string) (command : value) (relayKey : string) : Request := {|
  path := path;
  command := command;
  user := Str "global";
  body_relayKey := Str relayKey;
  delayInSecs := Undefined;
  voice := Undefined;
  contentType := Undefined;
  body_currentTime := Undefined;
  broadcastAudioResponse := Undefined
|}.

(** A JSON object with an own property toString. *)
Definition unprintable : value := Obj [("toString", Num (Integral 1))].

(** The same for another user. *)
Definition request_of (user : value) (path : string) (command : value)
    (relayKey : string) : Request := {|
  path := path;
  command := command;
  user := user;
  body_relayKey := Str relayKey;
  delayInSecs := Undefined;
  voice := Undefined;
  contentType := Undefined;
  body_currentTime := Undefined;
  broadcastAudioResponse := Undefined
|}.

Definition seek (currentTime : value) : Request := {|
  path := "/chromecastControl";
  command := Str "SEEK";
  user := Str "global";
  body_relayKey := Str "r3pl4ac3th153x4mpl3n0nc3";
  delayInSecs := Undefined;
  voice := Undefined;
  contentType := Undefined;
  body_currentTime := currentTime;
  broadcastAudioResponse := Undefined
|}.

End Example.

(** ** Invariants of the two loops *)

Module Invariant.
Import Audio Samples.

(** The window variables of the loop of truncateSilences, for an open
    run [run] after the samples [done]. *)
Definition window (done run : list (byte * byte)) (start : Z) (end_ : option Z) : Prop :=
  match run with
  | [] => end_ = None
  | _ => start = 2 * Z.of_nat (length done)
         ∧ end_ = Some (2 * Z.of_nat (length done + length run) - 2)
  end.

(** The state of the loop when it has read [done] and [run] and still
    has [rest] to read. *)
Definition ts_at (done run rest : list (byte * byte)) (start : Z) (end_ : option Z) : ts_state :=
  TsState (flatten (done ++ run ++ rest)) (2 * Z.of_nat (length done + length run)) start end_.

(** Rounds still to go, for a cursor [i] on a buffer of [n] bytes. *)
Definition rounds (n i : Z) : Z :=
  if (0 <=? i) && (i <? n) then 1 + n * n + (n - i) else 1.

(** The window of truncateSilences lies before the cursor. *)
Definition ts_wf (s : ts_state) : Prop :=
  match ts_end s with
  | Some e => 0 ≤ ts_start s ≤ e ∧ e < ts_i s
  | None => True
  end.

(** The window of chunkBuffer lies before the cursor, and so did every
    mark when it was pushed. *)
Definition cb_wf (s : cb_state) : Prop :=
  match cb_end s with Some e => 0 ≤ e < cb_i s | None => True end
  ∧ Forall (fun mark => 0 < mark ≤ Buffer.len (cb_buf s) - 2) (cb_endMarks s).

(** What chunkBuffer has emitted, followed by what is left. *)
Definition cb_bytes (s : cb_state) : Buffer.t := mjoin (cb_bufs s) ++ cb_buf s.

End Invariant.

(** ** Statements of the specification that the code does not meet *)

Module Stated.
Import Audio Samples.

(** "A buffer that is entirely silent truncates to a single run of
    maxSilenceSamples silent samples." *)
Definition all_silent_truncated (buf : Buffer.t) (maxSamples threshold : Z) : Prop :=
  all_silent threshold buf = true →
  ∃ out, truncateSilences buf maxSamples threshold = Returned out
         ∧ all_silent threshold out = true
         ∧ Z.of_nat (length (samples out)) = maxSamples.

(** "A buffer with no run exceeding the threshold is returned
    unchanged", the runs counted in samples. *)
Definition unchanged_when_runs_short (buf : Buffer.t) (maxSamples threshold : Z) : Prop :=
  runs_within threshold maxSamples buf = true →
  truncateSilences buf maxSamples threshold = Returned buf.

(** "If the relayKey does not equal the pre-shared key configured for
    that user, or the user is not configured, the dispatcher responds
    with an authorization error (403) and invokes no downstream
    action." *)
Definition denied (host : Relay.Host) (config : Relay.Config)
    (fs : gmap string (list byte)) (req : Relay.Request) : Prop :=
  Js.is_nullish (Relay.command req) = false →
  Js.is_nullish (Relay.user req) = false →
  Js.is_nullish (Relay.body_relayKey req) = false →
  (∀ name u, Relay.str host (Relay.user req) = Some name →
             Relay.users config !! name = Some u →
             Relay.body_relayKey req ≠ Js.Str (Relay.relayKey u)) →
  Relay.status (Relay.response (Relay.post host config fs req)) = 403
  ∧ Relay.effects (Relay.post host config fs req) = [].

(** "A request whose command is the empty string passes field
    validation (no 400 Malformed request) and proceeds to the
    authentication check and command dispatch." *)
Definition empty_command_proceeds (host : Relay.Host) (config : Relay.Config)
    (fs : gmap string (list byte)) (req : Relay.Request) : Prop :=
  Relay.command req = Js.Str EmptyString →
  Js.is_nullish (Relay.user req) = false →
  Js.is_nullish (Relay.body_relayKey req) = false →
  Relay.status (Relay.response (Relay.post host config fs req)) ≠ 400
  ∧ (Relay.post host config fs req = Relay.respond 403 "Access denied." []
     ∨ Relay.post host config fs req = Relay.dispatch host config fs req).

End Stated.

(** ** The conversation callbacks and the senders (google-assistant-helper.js) *)

Module Session.

Definition MAX_BUFFER_LENGTH : Z := 280000.
Definition MAX_SILENCE_LENGTH : Z := 8000.
Definition SILENCE_THRESHOLD : Z := 100.
Definition AUDIO_OUT_LINEAR16 : string := "LINEAR16".

(** What a sender or a callback can throw. *)
Inductive exn : Type :=
  | Raised (e : error)
  | ReferenceError.     (* a name that is not declared *)

(** The arguments that startConversation closes over. [conv_buf] and
    [conv_format] are None for null or undefined, [continued] and
    [conv_broadcastAudioResponse] are false for undefined. *)
Record conversation : Type := Conversation {
  counter : Z;
  conv_user : string;
  conv_buf : option Buffer.t;
  conv_format : option string;
  continued : bool;
  conv_broadcastAudioResponse : bool
}.

(** The calls of assistant.start, with what their callback will pass to
    startConversation. *)
Inductive start_request : Type :=
  | TextQuery (text : string) (user : string) (broadcastAudioResponse : bool)
  | BroadcastPreface (user : string) (buf : Buffer.t) (format : string)
  | Continue (conv : conversation).

(** The callback of assistant.start: the conversation that
    startConversation is called for, and the global conversationCounter
    afterwards. sendTextInput and sendBroadcastAudioBuffer pass
    conversationCounter++, the continuation passes the counter it has. *)
Definition opened (conversationCounter : Z) (r : start_request) : conversation * Z :=
  match r with
  | TextQuery _ user broadcastAudioResponse =>
      (Conversation conversationCounter user None None false broadcastAudioResponse,
       conversationCounter + 1)
  | BroadcastPreface user buf format =>
      (Conversation conversationCounter user (Some buf) (Some format) false false,
       conversationCounter + 1)
  | Continue conv =>
      (Conversation (counter conv) (conv_user conv) (conv_buf conv) (conv_format conv)
                    true false,
       conversationCounter)
  end.

(** What startConversation writes when it is called for a conversation. *)
Definition writes (conv : conversation) : outcome (list Conversation.written) :=
  Conversation.startConversation_writes (conv_buf conv) (continued conv).

(** function sendBroadcastAudioBuffer(buf, user, format). [users] holds
    the own keys of config.users, [assistants] the users whose assistant
    is ready; [buf] is None when the caller passes undefined. The log
    line for an unknown user reads the undeclared name text. *)
Definition sendBroadcastAudioBuffer (users assistants : gset string)
    (buf : option Buffer.t) (user : string) (format : string)
  : exn + option start_request :=
  if negb (bool_decide (user ∈ users)) then inl ReferenceError
  else
    match buf with
    | None => inl (Raised TypeError)
    | Some b =>
        if MAX_BUFFER_LENGTH <? Buffer.len b then inr None
        else if negb (bool_decide (user ∈ assistants)) then inl (Raised TypeError)
        else inr (Some (BroadcastPreface user b format))
    end.

(** function sendBroadcastAudio(path, user, format): the file is read
    inside try/catch, so a file that cannot be read leaves buf
    undefined. *)
Definition sendBroadcastAudio (fs : gmap string (list byte)) (users assistants : gset string)
    (path : string) (user : string) (format : string) : exn + option start_request :=
  sendBroadcastAudioBuffer users assistants (fs !! path) user format.

(** function sendTextInput(text, user, broadcastAudioResponse) *)
Definition sendTextInput (users assistants : gset string)
    (text : string) (user : string) (broadcastAudioResponse : bool)
  : exn + option start_request :=
  if negb (bool_decide (user ∈ users)) then inr None
  else if negb (bool_decide (user ∈ assistants)) then inl (Raised TypeError)
  else inr (Some (TextQuery text user broadcastAudioResponse)).

(** The events of a conversation. *)
Inductive event : Type :=
  | Response (text : string)
  | EndOfUtterance
  | Transcription (done : bool)
  | AudioData (audioData : Buffer.t)
  | DeviceAction
  | VolumePercent
  | ScreenData
  | Ended (error : bool) (continueConversation : bool)
  | Error.

Inductive effect : Type :=
  | WriteFileSync (file : string) (data : Buffer.t)   (* inside try/catch *)
  | AssistantStart (r : start_request)
  | ConversationEnd.

(** What a callback leaves: the map audioBuffers, what it did up to
    there, and the exception that ended it, if any. *)
Record handled : Type := Handled {
  audioBuffers : gmap Z (list byte);
  effects : list effect;
  thrown : option exn
}.

Definition starts (r : exn + option start_request) : list effect :=
  match r with
  | inr (Some request) => [AssistantStart request]
  | _ => []
  end.

Definition throws (r : exn + option start_request) : option exn :=
  match r with inl e => Some e | inr _ => None end.

Section Callbacks.
Variable saveAudioFiles : bool.
Variables users assistants : gset string.
Variable conv : conversation.

(** .on('response', (text) => ...) *)
Definition on_response (buffers : gmap Z (list byte)) (text : string) : handled :=
  if negb (String.eqb text EmptyString) && negb (conv_broadcastAudioResponse conv) then
    let sent := sendTextInput users assistants ("broadcast " +:+ text) (conv_user conv) false in
    Handled buffers (starts sent) (throws sent)
  else Handled buffers [] None.

(** .on('audio-data', (audioData) => ...) *)
Definition on_audio_data (buffers : gmap Z (list byte)) (audioData : Buffer.t) : handled :=
  match buffers !! counter conv with
  | None => Handled (<[counter conv := audioData]> buffers) [] None
  | Some sofar =>
      Handled (<[counter conv := Buffer.concat [sofar; audioData]]> buffers) [] None
  end.

(** The end of the 'ended' callback, after the audio was dealt with. *)
Definition continue_or_end (continueConversation : bool) : list effect :=
  if continueConversation then
    match conv_buf conv with
    | Some _ =>
        if bool_decide (conv_user conv ∈ assistants)
        then [AssistantStart (Continue conv)] else []
    | None => []
    end
  else [ConversationEnd].

Definition continue_throws (continueConversation : bool) : option exn :=
  if continueConversation then
    match conv_buf conv with
    | Some _ =>
        if bool_decide (conv_user conv ∈ assistants) then None
        else Some (Raised TypeError)
    | None => None
    end
  else None.

(** .on('ended', (error, continueConversation) => ...) *)
Definition on_ended (buffers : gmap Z (list byte)) (error continueConversation : bool)
  : handled :=
  if error then Handled buffers [] None
  else
    match buffers !! counter conv with
    | Some audio =>
        let saved :=
          if saveAudioFiles
          then [WriteFileSync ("./audio-" +:+ pretty (counter conv) +:+ ".lpcm16") audio]
          else [] in
        if conv_broadcastAudioResponse conv then
          match Audio.truncateSilences audio MAX_SILENCE_LENGTH SILENCE_THRESHOLD with
          | Returned audioBuffer =>
              let sent := sendBroadcastAudioBuffer users assistants (Some audioBuffer)
                            (conv_user conv) AUDIO_OUT_LINEAR16 in
              match throws sent with
              | Some e => Handled buffers saved (Some e)
              | None =>
                  Handled (delete (counter conv) buffers)
                          (saved ++ starts sent ++ continue_or_end continueConversation)
                          (continue_throws continueConversation)
              end
          | Thrown e => Handled buffers saved (Some (Raised e))
          | OutOfFuel => Handled buffers saved None
          end
        else
          Handled (delete (counter conv) buffers)
                  (saved ++ continue_or_end continueConversation)
                  (continue_throws continueConversation)
    | None =>
        Handled buffers (continue_or_end continueConversation)
                (continue_throws continueConversation)
    end.

(** The callbacks that startConversation registers. *)
Definition on_event (buffers : gmap Z (list byte)) (ev : event) : handled :=
  match ev with
  | Response text => on_response buffers text
  | AudioData audioData => on_audio_data buffers audioData
  | Ended error continueConversation => on_ended buffers error continueConversation
  | Error => Handled buffers [ConversationEnd] None
  | EndOfUtterance | Transcription _ | DeviceAction | VolumePercent | ScreenData =>
      Handled buffers [] None
  end.

(** The audio-data frames among some events, in order. *)
Definition audio_frames (evs : list event) : list Buffer.t :=
  omap (fun ev => match ev with AudioData audioData => Some audioData | _ => None end) evs.

Definition is_ended (ev : event) : bool :=
  match ev with Ended _ _ => true | _ => false end.

(** The map audioBuffers after a sequence of events, each callback
    starting from what the one before left. *)
Definition after_events (buffers : gmap Z (list byte)) (evs : list event)
  : gmap Z (list byte) :=
  fold_left (fun b ev => audioBuffers (on_event b ev)) evs buffers.
End Callbacks.

End Session.

(** ** Building the routes at start-up (google-assistant-helper.js) *)

Module Startup.

Definition validRelays : list string :=
  ["broadcast"; "broadcastAudio"; "custom"; "chromecastAudio";
   "chromecastTTS"; "chromecastURL"; "chromecastControl"].

(** An entry of config.relays: whether [on] is truthy, and its route
    (None when the entry has none). *)
Record entry : Type := Entry { entry_on : bool; entry_route : option string }.

(** !config.relays[k].route *)
Definition no_route (e : entry) : bool :=
  match entry_route e with
  | None => true
  | Some r => String.eqb r EmptyString
  end.

Inductive started : Type :=
  | Exit (code : Z)     (* process.exit(code) *)
  | Routes (compositeRoute : list (option string))
           (relayRoutes : gmap string (option string)).

(** Object.keys(config.relays).forEach(k => ...), then the test on the
    length of compositeRoute. A relay that is on but not among
    validRelays is logged and bound all the same. *)
Fixpoint bind_routes (relays : list (string * entry))
    (compositeRoute : list (option string))
    (relayRoutes : gmap string (option string)) : started :=
  match relays with
  | [] =>
      if Z.of_nat (length compositeRoute) =? 0 then Exit 2
      else Routes compositeRoute relayRoutes
  | (k, e) :: rest =>
      if entry_on e then
        if negb (bool_decide (k ∈ validRelays)) then
          bind_routes rest (compositeRoute ++ [entry_route e])
                      (<[k := entry_route e]> relayRoutes)
        else if no_route e then Exit 3
        else bind_routes rest (compositeRoute ++ [entry_route e])
                         (<[k := entry_route e]> relayRoutes)
      else bind_routes rest compositeRoute relayRoutes
  end.

Definition build_routes (relays : list (string * entry)) : started :=
  bind_routes relays [] ∅.

(** relayRoutes[k] != null *)
Definition bound (relayRoutes : gmap string (option string)) (k : string) : bool :=
  match relayRoutes !! k with
  | Some (Some _) => true
  | _ => false
  end.

End Startup.

(** ** The devices and players of cast.js *)

Module Chromecast.

(** The two objects of the module. *)
Record maps : Type := Maps {
  chromecasts : Cast.devices;
  players : Cast.players
}.

(** const chromecasts = {}; const players = {}; *)
Definition started : maps := Maps Cast.no_devices Cast.no_players.

(** browser.on('serviceUp', ...); [friendlyName] is the property key
    that service.txtRecord.fn gives. *)
Definition serviceUp (m : maps) (friendlyName address : string) (port : Z) : maps :=
  Maps (Cast.add_device (chromecasts m) friendlyName (address, port)) (players m).


(** The maps after the advertisements [services], in their order. *)
Definition advertise (services : list (string * (string * Z))) : maps :=
  fold_left (fun m service => serviceUp m service.1 service.2.1 service.2.2)
            services started.

(** function cast(serviceName, mediaUrl, mediaType): None when it
    returns at its test, else what client.connect is called with. *)
Definition cast (m : maps) (serviceName : option string) : option (Js.member (string * Z)) :=
  match Cast.device (chromecasts m) (default "undefined" serviceName) with
  | Js.Missing => None
  | found => Some found
  end.

(** The callback of client.launch in cast, for a launch that gave a
    player: players[serviceName] = player. *)
Definition launched (m : maps) (serviceName : option string) : maps :=
  Maps (chromecasts m)
       (Cast.set_player (players m) (default "undefined" serviceName) (Some ())).

(** client.on('error', ...): players[serviceName] = null. *)
Definition client_error (m : maps) (serviceName : option string) : maps :=
  Maps (chromecasts m)
       (Cast.set_player (players m) (default "undefined" serviceName) None).

Definition control (m : maps) (serviceName : option string) (c : Cast.commandObj)
  : Cast.controlled :=
  Cast.control (chromecasts m) (players m) serviceName c.

(** The results of control that call into a player. *)
Definition reaches_player (r : Cast.controlled) : bool :=
  match r with
  | Cast.PlayerPlay | Cast.PlayerPause | Cast.PlayerStop | Cast.PlayerSeek _ => true
  | _ => false
  end.

End Chromecast.

(** ** The older variant of the helper (typed arrays) *)

Module Legacy.

(** An Int16Array is the list of its elements. *)
Definition in_int16 (v : Z) : bool := (-32768 <=? v) && (v <=? 32767).

(** The conversion of a value stored into an Int16Array. *)
Definition store_int16 (v : Z) : Z := Buffer.to_int16 (v mod 65536).

(** target.set(source, offset) *)
Definition set (target source : list Z) (offset : nat) : outcome (list Z) :=
  if (length target <? offset + length source)%nat then Thrown RangeError
  else Returned (take offset target ++ (store_int16 <$> source)
                 ++ drop (offset + length source) target).

(** The second loop of concatenate. *)
Fixpoint fill (arrays : list (list Z)) (result : list Z) (offset : nat) : outcome (list Z) :=
  match arrays with
  | [] => Returned result
  | arr :: rest =>
      result' ←! set result arr offset ;;
      fill rest result' (offset + length arr)
  end.

(** function concatenate(resultConstructor, ...arrays), for Int16Array. *)
Definition concatenate (arrays : list (list Z)) : outcome (list Z) :=
  let totalLength := fold_left (fun total arr => (total + length arr)%nat) arrays 0%nat in
  fill arrays (replicate totalLength 0) 0.

(** array.subarray(begin, end), with the index normalisation of slice. *)
Definition index (a : list Z) (k : Z) : nat :=
  if k <? 0 then Z.to_nat (Z.max (Z.of_nat (length a) + k) 0)
  else Z.to_nat (Z.min k (Z.of_nat (length a))).

Definition subarray (a : list Z) (begin end_ : Z) : list Z :=
  take (index a end_ - index a begin)%nat (drop (index a begin) a).

(** const silence = new Int16Array(16000) *)
Definition silence : list Z := replicate (Z.to_nat 16000) 0.

(** for (i = 0; i < bytes.length; i += 1600)
      conversation.write(bytes.subarray(i, i+1600 < bytes.length ? i+1600 : bytes.length)) *)
Fixpoint write_frames (fuel : nat) (bytes : list Z) (i : Z) : outcome (list (list Z)) :=
  match fuel with
  | O => OutOfFuel
  | S fuel' =>
      if i <? Z.of_nat (length bytes) then
        let frame :=
          subarray bytes i (if i + 1600 <? Z.of_nat (length bytes) then i + 1600
                            else Z.of_nat (length bytes)) in
        rest ←! write_frames fuel' bytes (i + 1600) ;;
        Returned (frame :: rest)
      else Returned []
  end.

(** The writes at the end of the older startConversation; every write
    is an Int16Array. *)
Definition startConversation_writes (bytes : option (list Z)) (continued : bool)
  : outcome (list (list Z)) :=
  match bytes with
  | Some b =>
      if continued then
        frames ←! write_frames (S (length b)) b 0 ;;
        Returned (frames ++ [silence])
      else Returned []
  | None => Returned []
  end.

End Legacy.

(** ** Statements about samples and chunks *)

Module Shape.
Import Samples Invariant.

(** The samples at or above the threshold, in order. *)
Definition loud_samples (threshold : Z) (buf : Buffer.t) : list Z :=
  List.filter (fun v => negb (silent threshold v)) (samples buf).

(** Length, in samples, of the silent run at the end of a buffer. *)
Definition trailing_run (threshold : Z) (buf : Buffer.t) : nat :=
  trailing_run_from (silent threshold) 0 (samples buf).

(** A chunk that chunkBuffer cuts off: not empty, of whole samples,
    shorter than [maxLength]. *)
Definition cut_chunk (maxLength : Z) (chunk : Buffer.t) : Prop :=
  0 < Buffer.len chunk < maxLength ∧ Z.even (Buffer.len chunk) = true.

(** The cursor of chunkBuffer is an even offset, its marks are even
    offsets below [maxLength], and the chunks emitted so far are cut
    chunks. *)
Definition cb_cuts (maxLength : Z) (s : Audio.cb_state) : Prop :=
  (0 ≤ Audio.cb_i s ∧ Z.even (Audio.cb_i s) = true)
  ∧ Forall (fun mark => mark < maxLength ∧ Z.even mark = true) (Audio.cb_endMarks s)
  ∧ Forall (cut_chunk maxLength) (Audio.cb_bufs s).

(** The same on a buffer of whole samples. *)
Definition cb_whole (maxLength : Z) (s : Audio.cb_state) : Prop :=
  cb_wf s ∧ cb_cuts maxLength s ∧ Z.even (Buffer.len (Audio.cb_buf s)) = true.

End Shape.

(** * Facts about buffers *)

(** Boolean comparisons of the code, as propositions. *)
Ltac zbool :=
  repeat match goal with
    | H : (_ <? _) = true |- _ => apply Z.ltb_lt in H
    | H : (_ <? _) = false |- _ => apply Z.ltb_ge in H
    | H : (_ <=? _) = true |- _ => apply Z.leb_le in H
    | H : (_ <=? _) = false |- _ => apply Z.leb_gt in H
    | H : (_ =? _) = true |- _ => apply Z.eqb_eq in H
    | H : (_ =? _) = false |- _ => apply Z.eqb_neq in H
    end.

Section BufferFacts.
Import Buffer.

Lemma len_nonneg (buf : t) : 0 ≤ len buf.
Proof. unfold len. lia. Qed.

Lemma clamp_le_length (buf : t) k : (clamp buf k ≤ length buf)%nat.
Proof. unfold clamp, len. destruct (k <? 0) eqn:E; zbool; lia. Qed.

Lemma clamp_in_range (buf : t) k : 0 ≤ k ≤ len buf → clamp buf k = Z.to_nat k.
Proof. unfold clamp, len. intros H. destruct (k <? 0) eqn:E; zbool; lia. Qed.

Lemma clamp_beyond (buf : t) k : len buf ≤ k → clamp buf k = length buf.
Proof. unfold clamp, len. intros H. destruct (k <? 0) eqn:E; zbool; lia. Qed.

Lemma slice_0 (buf : t) m : slice buf 0 m = take (clamp buf m) buf.
Proof.
  unfold slice. rewrite (clamp_in_range buf 0) by (pose proof (len_nonneg buf); lia).
  simpl. by rewrite Nat.sub_0_r.
Qed.

Lemma slice_from_drop (buf : t) m : slice_from buf m = drop (clamp buf m) buf.
Proof.
  unfold slice_from, slice. rewrite (clamp_beyond buf (len buf)) by lia.
  apply take_ge. rewrite length_drop. lia.
Qed.

(** buf.slice(0, m) and buf.slice(m) split the buffer, for every m. *)
Lemma slice_split (buf : t) m : slice buf 0 m ++ slice_from buf m = buf.
Proof. rewrite slice_0, slice_from_drop. apply take_drop. Qed.

Lemma readInt16LE_range (buf : t) k v :
  readInt16LE buf k = Returned v → 0 ≤ k ≤ len buf - 2.
Proof.
  unfold readInt16LE. destruct (k <? 0) eqn:E1; [done|].
  destruct (len buf - 2 <? k) eqn:E2; [done|]. zbool. lia.
Qed.

Lemma readInt16LE_not_out_of_fuel (buf : t) k : readInt16LE buf k ≠ OutOfFuel.
Proof.
  unfold readInt16LE. destruct (_ || _); [done|].
  destruct (buf !! _); [|done]. by destruct (buf !! _).
Qed.
End BufferFacts.

Section SampleFacts.
Import Buffer Samples.

Lemma flatten_app ps qs : flatten (ps ++ qs) = flatten ps ++ flatten qs.
Proof. unfold flatten. apply bind_app. Qed.

Lemma flatten_length ps : length (flatten ps) = (2 * length ps)%nat.
Proof. induction ps as [|p ps IH]; simpl; [done|]. rewrite IH. lia. Qed.

Lemma flatten_len ps : len (flatten ps) = 2 * Z.of_nat (length ps).
Proof. unfold len. rewrite flatten_length. lia. Qed.

Lemma flatten_pairs (buf : t) : even_length buf = true → flatten (pairs buf) = buf.
Proof.
  unfold even_length. revert buf.
  fix IH 1. intros [|lo [|hi rest]]; simpl; [done|done|].
  intros H. f_equal. f_equal. by apply IH.
Qed.

Lemma pairs_flatten ps : pairs (flatten ps) = ps.
Proof. induction ps as [|[lo hi] ps IH]; simpl; [done|]. by rewrite IH. Qed.

Lemma flatten_even ps : even_length (flatten ps) = true.
Proof.
  unfold even_length. rewrite flatten_length.
  rewrite Nat.even_mul. done.
Qed.

Lemma drop_flatten k ps : drop (2 * k) (flatten ps) = flatten (drop k ps).
Proof.
  revert ps. induction k as [|k IH]; intros ps; [done|].
  destruct ps as [|p ps]; [done|].
  replace (2 * S k)%nat with (S (S (2 * k))) by lia. simpl. apply IH.
Qed.

(** The read at offset 2k is sample k. *)
Lemma readInt16LE_flatten xs p ys :
  readInt16LE (flatten (xs ++ p :: ys)) (2 * Z.of_nat (length xs))
  = Returned (sample_of p).
Proof.
  unfold readInt16LE.
  rewrite (proj2 (Z.ltb_ge _ 0)) by lia.
  rewrite (proj2 (Z.ltb_ge _ _))
    by (rewrite flatten_len, length_app; simpl length; lia).
  cbn [orb].
  rewrite flatten_app.
  replace (Z.to_nat (2 * Z.of_nat (length xs))) with (length (flatten xs) + 0)%nat
    by (rewrite flatten_length; lia).
  rewrite lookup_app_r by lia.
  replace (S (length (flatten xs) + 0)) with (length (flatten xs) + 1)%nat by lia.
  rewrite lookup_app_r by lia.
  replace (length (flatten xs) + 0 - length (flatten xs))%nat with 0%nat by lia.
  replace (length (flatten xs) + 1 - length (flatten xs))%nat with 1%nat by lia.
  done.
Qed.
End SampleFacts.

(** * truncateSilences on whole samples *)

Section TruncateRefines.
Import Buffer Audio Samples Invariant.
Variables maxSamples threshold : Z.

Lemma ts_read done run p rest :
  readInt16LE (flatten (done ++ run ++ p :: rest)) (2 * Z.of_nat (length done + length run))
  = Returned (sample_of p).
Proof.
  rewrite (assoc_L (++)), <- length_app. apply readInt16LE_flatten.
Qed.

Lemma ts_body_silent done run p rest start end_ :
  silent_pair threshold p = true → window done run start end_ →
  ∃ start' end',
    ts_body maxSamples threshold (ts_at done run (p :: rest) start end_)
    = Returned (ts_at done (run ++ [p]) rest start' end')
    ∧ window done (run ++ [p]) start' end'.
Proof.
  intros Hq Hw. unfold ts_body, ts_at. cbn [ts_buf ts_i ts_start ts_end].
  rewrite ts_read. cbn [obind]. fold (silent threshold (sample_of p)).
  fold (silent_pair threshold p). rewrite Hq.
  eexists _, _. split.
  - f_equal. f_equal.
    + by rewrite <- (assoc_L (++) run).
    + rewrite length_app. simpl. lia.
  - unfold window in *. destruct run as [|r run]; simpl.
    + subst end_. split; [lia|f_equal; lia].
    + destruct Hw as [-> ->]. split; [done|]. f_equal.
      rewrite length_app. simpl. lia.
Qed.

Lemma ts_body_loud_idle done p rest start :
  silent_pair threshold p = false →
  ts_body maxSamples threshold (ts_at done [] (p :: rest) start None)
  = Returned (ts_at (done ++ [p]) [] rest start None).
Proof.
  intros Hq. unfold ts_body, ts_at. cbn [ts_buf ts_i ts_start ts_end].
  rewrite ts_read. cbn [obind]. fold (silent threshold (sample_of p)).
  fold (silent_pair threshold p). rewrite Hq.
  f_equal. f_equal.
  - simpl. by rewrite <- (assoc_L (++) done).
  - rewrite length_app. simpl. lia.
Qed.

Lemma ts_body_loud_keep done run p rest start end_ :
  silent_pair threshold p = false → run ≠ [] → window done run start end_ →
  2 * Z.of_nat (length run) ≤ maxSamples →
  ts_body maxSamples threshold (ts_at done run (p :: rest) start end_)
  = Returned (ts_at (done ++ run ++ [p]) [] rest start None).
Proof.
  intros Hq Hne Hw Hle. unfold ts_body, ts_at. cbn [ts_buf ts_i ts_start ts_end].
  rewrite ts_read. cbn [obind]. fold (silent threshold (sample_of p)).
  fold (silent_pair threshold p). rewrite Hq.
  unfold window in Hw. destruct run as [|r run]; [done|]. destruct Hw as [-> ->].
  rewrite (proj2 (Z.ltb_ge _ _)) by lia.
  f_equal. f_equal.
  - by rewrite <- !(assoc_L (++)).
  - rewrite !length_app. simpl. lia.
Qed.

Lemma cut_length (run : list (byte * byte)) :
  0 ≤ maxSamples → maxSamples < 2 * Z.of_nat (length run) →
  Z.of_nat (length (cut maxSamples run)) = maxSamples / 2.
Proof.
  intros H0 Hlt. unfold cut. rewrite (proj2 (Z.ltb_lt _ _)) by done.
  rewrite length_drop.
  assert (maxSamples / 2 < Z.of_nat (length run)) by (apply Z.div_lt_upper_bound; lia).
  assert (0 ≤ maxSamples / 2) by (apply Z.div_pos; lia). lia.
Qed.

Lemma window_open done run start end_ :
  run ≠ [] → window done run start end_ →
  start = 2 * Z.of_nat (length done)
  ∧ end_ = Some (2 * Z.of_nat (length done + length run) - 2).
Proof. by destruct run. Qed.

Lemma ts_body_loud_cut done run p rest start end_ :
  silent_pair threshold p = false → window done run start end_ →
  Z.even maxSamples = true → 0 ≤ maxSamples →
  maxSamples < 2 * Z.of_nat (length run) →
  ts_body maxSamples threshold (ts_at done run (p :: rest) start end_)
  = Returned (ts_at (done ++ cut maxSamples run ++ [p]) [] rest start None).
Proof.
  intros Hq Hw Hev H0 Hlt. unfold ts_body, ts_at. cbn [ts_buf ts_i ts_start ts_end].
  rewrite ts_read. cbn [obind]. fold (silent threshold (sample_of p)).
  fold (silent_pair threshold p). rewrite Hq.
  apply window_open in Hw as [-> ->]; [|intros ->; simpl in Hlt; lia].
  rewrite (proj2 (Z.ltb_lt _ _)) by lia.
  assert (Hc : maxSamples = 2 * (maxSamples / 2)).
  { destruct (proj1 (Z.even_spec _) Hev) as [c Hc]. rewrite Hc at 2.
    rewrite (Z.mul_comm 2 c), Z.div_mul; lia. }
  pose proof (cut_length run H0 Hlt) as Hcl.
  set (c := maxSamples / 2) in *.
  f_equal. f_equal.
  - unfold Buffer.concat. simpl mjoin. rewrite (right_id_L [] (++)).
    rewrite slice_0, slice_from_drop.
    rewrite (clamp_in_range _ (2 * Z.of_nat (length done)))
      by (rewrite flatten_len, !length_app; simpl length; lia).
    rewrite clamp_in_range
      by (rewrite flatten_len, !length_app; simpl length; lia).
    rewrite !flatten_app.
    replace (Z.to_nat (2 * Z.of_nat (length done))) with (length (flatten done))
      by (rewrite flatten_length; lia).
    rewrite take_app_length.
    replace (Z.to_nat _) with (length (flatten done) + 2 * (length run - Z.to_nat c))%nat
      by (rewrite flatten_length; lia).
    rewrite drop_app_add, drop_app_le
      by (rewrite flatten_length; lia).
    rewrite drop_flatten. unfold cut.
    rewrite (proj2 (Z.ltb_lt _ _)) by lia. fold c.
    by rewrite <- !(assoc_L (++)).
  - rewrite !length_app. simpl length. lia.
Qed.

Lemma ts_loop_unfold fuel s :
  ts_loop (S fuel) maxSamples threshold s
  = if ts_i s <? len (ts_buf s) then
      s' ←! ts_body maxSamples threshold s ;; ts_loop fuel maxSamples threshold s'
    else Returned (ts_buf s).
Proof. done. Qed.

(** The loop on a buffer of whole samples is [truncate_runs], as long as
    every cut is a whole number of samples: [maxSamples] is even and not
    negative, or nothing is ever cut. *)
Lemma ts_loop_refines rest : ∀ done run fuel start end_,
  (length rest < fuel)%nat →
  window done run start end_ →
  (Z.even maxSamples = true ∧ 0 ≤ maxSamples)
  ∨ Forall (fun r => 2 * Z.of_nat r ≤ maxSamples)
           (closed_runs_from (silent_pair threshold) (length run) rest) →
  ts_loop fuel maxSamples threshold (ts_at done run rest start end_)
  = Returned (flatten (done ++ truncate_runs (silent_pair threshold) maxSamples run rest)).
Proof.
  induction rest as [|p rest IH]; intros done run fuel start end_ Hfuel Hw Hcase;
    (destruct fuel as [|fuel]; [simpl in Hfuel; lia|]); rewrite ts_loop_unfold.
  - unfold ts_at at 1 2. cbn [ts_i ts_buf].
    rewrite (proj2 (Z.ltb_ge _ _))
      by (rewrite flatten_len, !length_app; simpl length; lia).
    unfold ts_at. cbn [ts_buf truncate_runs]. by rewrite (right_id_L [] (++)).
  - unfold ts_at at 1 2. cbn [ts_i ts_buf].
    rewrite (proj2 (Z.ltb_lt _ _))
      by (rewrite flatten_len, !length_app; simpl length; lia).
    fold (ts_at done run (p :: rest) start end_).
    simpl in Hfuel. cbn [truncate_runs closed_runs_from] in *.
    destruct (silent_pair threshold p) eqn:Hq.
    + destruct (ts_body_silent done run p rest start end_ Hq Hw)
        as (start' & end' & -> & Hw').
      cbn [obind]. apply IH; [lia|done|].
      destruct Hcase as [?|Hruns]; [by left|right].
      rewrite length_app. simpl. by rewrite Nat.add_1_r.
    + destruct run as [|r run].
      * simpl in Hw. subst end_. rewrite ts_body_loud_idle by done.
        cbn [obind]. rewrite IH; [|lia|done|].
        -- by rewrite <- (assoc_L (++) done).
        -- destruct Hcase as [?|Hruns]; [by left|by right].
      * set (whole := r :: run) in *.
        destruct (Z.le_gt_cases (2 * Z.of_nat (length whole)) maxSamples) as [Hle|Hgt].
        -- rewrite (ts_body_loud_keep done whole p rest start end_) by done.
           cbn [obind]. rewrite IH; [|lia|done|].
           ++ unfold cut. rewrite (proj2 (Z.ltb_ge _ _)) by lia.
              by rewrite <- !(assoc_L (++)).
           ++ destruct Hcase as [?|Hruns]; [by left|right].
              by inversion Hruns.
        -- destruct Hcase as [[Hev H0]|Hruns].
           ++ rewrite (ts_body_loud_cut done whole p rest start end_) by done.
              cbn [obind]. rewrite IH; [|lia|done|by left].
              by rewrite <- !(assoc_L (++)).
           ++ inversion Hruns as [|? ? Hr]; subst. simpl in Hgt. lia.
Qed.

(** truncateSilences on a buffer of whole samples. *)
Lemma truncateSilences_refines (buf : Buffer.t) :
  even_length buf = true →
  (Z.even maxSamples = true ∧ 0 ≤ maxSamples)
  ∨ Forall (fun r => 2 * Z.of_nat r ≤ maxSamples)
           (closed_runs (silent_pair threshold) (pairs buf)) →
  truncateSilences buf maxSamples threshold
  = Returned (flatten (truncate_runs (silent_pair threshold) maxSamples [] (pairs buf))).
Proof.
  intros Heven Hcase. unfold truncateSilences.
  rewrite <- (flatten_pairs buf Heven) at 2.
  change (TsState (flatten (pairs buf)) 0 0 None) with (ts_at [] [] (pairs buf) 0 None).
  rewrite (ts_loop_refines (pairs buf) [] [] _ 0 None); [done| |done|done].
  unfold loop_fuel. rewrite <- (flatten_pairs buf Heven) at 2 3 4.
  rewrite flatten_length. lia.
Qed.
End TruncateRefines.

(** * Silent runs and their truncation, on lists *)

Section RunFacts.
Import Samples.
Context {A : Type} (quiet : A → bool).

Lemma closed_runs_from_silent (sil l : list A) k :
  forallb quiet sil = true →
  closed_runs_from quiet k (sil ++ l) = closed_runs_from quiet (k + length sil) l.
Proof.
  revert k. induction sil as [|x sil IH]; intros k Hs; simpl in *.
  - by rewrite Nat.add_0_r.
  - apply andb_prop in Hs as [-> Hs]. rewrite IH by done. f_equal. lia.
Qed.

Lemma closed_runs_all_silent (l : list A) k :
  forallb quiet l = true → closed_runs_from quiet k l = [].
Proof.
  intros Hs. rewrite <- (app_nil_r l). by rewrite closed_runs_from_silent.
Qed.

Lemma forallb_snoc (l : list A) x :
  forallb quiet l = true → quiet x = true → forallb quiet (l ++ [x]) = true.
Proof. intros Hl Hx. rewrite forallb_app, Hl. simpl. by rewrite Hx. Qed.

Lemma forallb_drop (l : list A) n :
  forallb quiet l = true → forallb quiet (drop n l) = true.
Proof.
  revert n. induction l as [|x l IH]; intros [|n] Hl; simpl in *; try done.
  apply andb_prop in Hl as [_ Hl]. by apply IH.
Qed.

(** Nothing is cut when no closed run is longer than [maxSamples]
    bytes. *)
Lemma truncate_runs_id maxSamples (rest : list A) : ∀ run,
  Forall (fun r => 2 * Z.of_nat r ≤ maxSamples)
         (closed_runs_from quiet (length run) rest) →
  truncate_runs quiet maxSamples run rest = run ++ rest.
Proof.
  induction rest as [|x rest IH]; intros run Hruns; simpl in *.
  - by rewrite app_nil_r.
  - destruct (quiet x).
    + rewrite IH.
      * by rewrite <- (assoc_L (++)).
      * rewrite length_app. simpl. by rewrite Nat.add_1_r.
    + destruct run as [|r run]; simpl in *.
      * by rewrite IH.
      * inversion Hruns as [|? ? Hr Hrest]; subst.
        rewrite IH by done. unfold cut. simpl length.
        by rewrite (proj2 (Z.ltb_ge _ _)) by lia.
Qed.

Lemma cut_bound maxSamples (run : list A) :
  0 ≤ maxSamples → 2 * Z.of_nat (length (cut maxSamples run)) ≤ maxSamples.
Proof.
  intros H0. unfold cut. destruct (maxSamples <? _) eqn:E; zbool; [|lia].
  rewrite length_drop.
  pose proof (Z.mul_div_le maxSamples 2). lia.
Qed.

Lemma cut_silent maxSamples (run : list A) :
  forallb quiet run = true → forallb quiet (cut maxSamples run) = true.
Proof. intros H. unfold cut. destruct (_ <? _); [by apply forallb_drop|done]. Qed.

(** After the truncation no closed run is longer than [maxSamples]
    bytes. *)
Lemma truncate_runs_bounded maxSamples (rest : list A) : ∀ run,
  0 ≤ maxSamples → forallb quiet run = true →
  Forall (fun r => 2 * Z.of_nat r ≤ maxSamples)
         (closed_runs quiet (truncate_runs quiet maxSamples run rest)).
Proof.
  unfold closed_runs.
  induction rest as [|x rest IH]; intros run H0 Hrun; simpl.
  - by rewrite closed_runs_all_silent.
  - destruct (quiet x) eqn:Hx.
    + apply IH; [done|]. by apply forallb_snoc.
    + destruct run as [|r run].
      * simpl. rewrite Hx. by apply IH.
      * rewrite closed_runs_from_silent by by apply cut_silent.
        simpl. rewrite Hx.
        destruct (length (cut maxSamples (r :: run))) eqn:Hlen; [by apply IH|].
        constructor; [|by apply IH].
        rewrite <- Hlen. by apply cut_bound.
Qed.

Lemma truncate_runs_length maxSamples (rest : list A) : ∀ run,
  (length (truncate_runs quiet maxSamples run rest) ≤ length run + length rest)%nat.
Proof.
  induction rest as [|x rest IH]; intros run; simpl; [lia|].
  destruct (quiet x).
  - specialize (IH (run ++ [x])). rewrite length_app in IH. simpl in IH. lia.
  - specialize (IH []). destruct run as [|r run]; simpl in *; [lia|].
    rewrite length_app. simpl.
    assert (length (cut maxSamples (r :: run)) ≤ length (r :: run))%nat.
    { unfold cut. destruct (_ <? _); [rewrite length_drop|]; lia. }
    simpl in *. lia.
Qed.
End RunFacts.

Lemma closed_runs_from_fmap {A B} (f : A → B) (quiet : B → bool) (l : list A) k :
  Samples.closed_runs_from (quiet ∘ f) k l = Samples.closed_runs_from quiet k (f <$> l).
Proof.
  revert k. induction l as [|x l IH]; intros k; simpl; [done|].
  rewrite !IH. done.
Qed.

Lemma forallb_fmap {A B} (f : A → B) (quiet : B → bool) (l : list A) :
  forallb (quiet ∘ f) l = forallb quiet (f <$> l).
Proof. induction l as [|x l IH]; simpl; [done|]. by rewrite IH. Qed.

(** * truncateSilences *)

Section TruncateSilences.
Import Buffer Audio Samples.
Implicit Types buf : Buffer.t.

Lemma forallb_Forall {A} (f : A → bool) (P : A → Prop) (l : list A) :
  (∀ x, f x = true → P x) → forallb f l = true → Forall P l.
Proof.
  intros HP. induction l as [|x l IH]; simpl; intros H; constructor;
    apply andb_prop in H as [? ?]; auto.
Qed.

Lemma Forall_forallb_true {A} (f : A → bool) (P : A → Prop) (l : list A) :
  (∀ x, P x → f x = true) → Forall P l → forallb f l = true.
Proof.
  intros HP. induction 1 as [|x l Hx _ IH]; simpl; [done|].
  by rewrite (HP _ Hx), IH.
Qed.

Lemma closed_runs_pairs threshold buf :
  closed_runs (silent_pair threshold) (pairs buf)
  = closed_runs (silent threshold) (samples buf).
Proof.
  unfold closed_runs, samples.
  apply (closed_runs_from_fmap sample_of (silent threshold)).
Qed.

(** A buffer of whole samples in which no silent run that a non-silent
    sample ends spans more than [maxSamples] bytes comes back as it
    is. *)
Lemma truncateSilences_unchanged buf maxSamples threshold :
  even_length buf = true →
  closed_runs_within_bytes threshold maxSamples buf = true →
  truncateSilences buf maxSamples threshold = Returned buf.
Proof.
  intros Heven Hruns. unfold closed_runs_within_bytes in Hruns.
  rewrite <- closed_runs_pairs in Hruns.
  apply (forallb_Forall _ (fun r => 2 * Z.of_nat r ≤ maxSamples)) in Hruns;
    [|intros x Hx; zbool; lia].
  rewrite truncateSilences_refines by (done || by right).
  rewrite (truncate_runs_id _ _ _ []) by done.
  simpl. by rewrite flatten_pairs.
Qed.

(** A silent run that the end of the buffer ends is never cut: a buffer
    of silent samples comes back as it is, however long. *)
Lemma truncateSilences_all_silent buf maxSamples threshold :
  even_length buf = true →
  all_silent threshold buf = true →
  truncateSilences buf maxSamples threshold = Returned buf.
Proof.
  intros Heven Hsil. apply truncateSilences_unchanged; [done|].
  unfold closed_runs_within_bytes, closed_runs.
  by rewrite closed_runs_all_silent.
Qed.

(** With an even [maxSamples] that is not negative, the result has no
    closed run of more than [maxSamples] bytes and is not longer than
    the buffer. *)
Lemma truncateSilences_result buf maxSamples threshold :
  even_length buf = true → Z.even maxSamples = true → 0 ≤ maxSamples →
  ∃ out, truncateSilences buf maxSamples threshold = Returned out
         ∧ even_length out = true
         ∧ closed_runs_within_bytes threshold maxSamples out = true
         ∧ (length out ≤ length buf)%nat.
Proof.
  intros Heven Hev H0. eexists. split.
  { apply truncateSilences_refines; [done|by left]. }
  split; [apply flatten_even|]. split.
  - unfold closed_runs_within_bytes. rewrite <- closed_runs_pairs, pairs_flatten.
    apply (Forall_forallb_true _ (fun r => 2 * Z.of_nat r ≤ maxSamples));
      [intros x Hx; apply Z.leb_le; lia|].
    by apply truncate_runs_bounded.
  - rewrite <- (flatten_pairs buf Heven) at 2. rewrite !flatten_length.
    pose proof (truncate_runs_length (silent_pair threshold) maxSamples (pairs buf) []).
    simpl in *. lia.
Qed.
End TruncateSilences.

(** * The loops end *)

Section LoopsEnd.
Import Buffer Audio Invariant.

Lemma rounds_pos n i : 1 ≤ rounds n i.
Proof.
  unfold rounds. destruct (0 <=? i) eqn:E1, (i <? n) eqn:E2; simpl; zbool; nia.
Qed.

Lemma rounds_advance n i : 0 ≤ i ≤ n - 2 → rounds n (i + 2) < rounds n i.
Proof.
  intros H. unfold rounds.
  rewrite (proj2 (Z.leb_le 0 i)), (proj2 (Z.ltb_lt i n)) by lia.
  destruct (0 <=? i + 2) eqn:E1, (i + 2 <? n) eqn:E2; simpl; zbool; nia.
Qed.

Lemma rounds_shorter n n' i i' :
  0 ≤ i ≤ n - 2 → 0 ≤ n' < n → rounds n' i' < rounds n i.
Proof.
  intros H H'. unfold rounds.
  rewrite (proj2 (Z.leb_le 0 i)), (proj2 (Z.ltb_lt i n)) by lia.
  destruct (0 <=? i') eqn:E1, (i' <? n') eqn:E2; simpl; zbool; nia.
Qed.

Lemma rounds_start (n : nat) : rounds (Z.of_nat n) 0 ≤ Z.of_nat (loop_fuel n).
Proof.
  unfold rounds, loop_fuel. destruct (_ && _); lia.
Qed.

Section Truncate.
Variables maxSamples threshold : Z.

Lemma ts_body_step s s' :
  ts_wf s → ts_body maxSamples threshold s = Returned s' →
  ts_wf s' ∧ 0 ≤ ts_i s ≤ len (ts_buf s) - 2
  ∧ ((ts_buf s' = ts_buf s ∧ ts_i s' = ts_i s + 2)
     ∨ (length (ts_buf s') < length (ts_buf s))%nat).
Proof.
  destruct s as [buf i start end_]. unfold ts_wf, ts_body. simpl.
  intros Hwf. destruct (readInt16LE buf i) as [v| |] eqn:Hread; simpl; [|done|done].
  apply readInt16LE_range in Hread.
  destruct (v <? threshold).
  { intros [= <-]. simpl. split; [destruct end_; lia|]. split; [done|by left]. }
  destruct end_ as [e|]; [|intros [= <-]; simpl; split; [done|]; split; [done|by left]].
  destruct (maxSamples <? e - start + 2) eqn:Hcut;
    [|intros [= <-]; simpl; split; [done|]; split; [done|by left]].
  intros [= <-]. simpl. split; [done|]. split; [done|right]. zbool.
  unfold Buffer.concat. simpl mjoin.
  rewrite (right_id_L [] (++)), slice_0, slice_from_drop, length_app,
    length_take, length_drop.
  unfold len in *.
  rewrite clamp_in_range by (unfold len; lia).
  unfold clamp. destruct (_ <? 0) eqn:E; zbool; unfold len; lia.
Qed.

Lemma ts_body_not_out_of_fuel s : ts_body maxSamples threshold s ≠ OutOfFuel.
Proof.
  unfold ts_body. pose proof (readInt16LE_not_out_of_fuel (ts_buf s) (ts_i s)).
  destruct (readInt16LE _ _); simpl; [|done|done].
  destruct (_ <? _); [done|]. destruct (ts_end s); [|done]. by destruct (_ <? _).
Qed.

Lemma ts_loop_ends fuel : ∀ s,
  ts_wf s → rounds (len (ts_buf s)) (ts_i s) ≤ Z.of_nat fuel →
  ts_loop fuel maxSamples threshold s ≠ OutOfFuel
  ∧ ∀ out, ts_loop fuel maxSamples threshold s = Returned out →
           (length out ≤ length (ts_buf s))%nat.
Proof.
  induction fuel as [|fuel IH]; intros s Hwf Hfuel.
  { pose proof (rounds_pos (len (ts_buf s)) (ts_i s)). lia. }
  simpl. destruct (ts_i s <? len (ts_buf s)) eqn:Hi;
    [|split; [done|by intros out [= <-]]].
  pose proof (ts_body_not_out_of_fuel s) as Hbody.
  destruct (ts_body maxSamples threshold s) as [s'| |] eqn:Hs'; simpl; [|done|done].
  destruct (ts_body_step s s' Hwf Hs') as (Hwf' & Hrange & Hstep).
  assert (rounds (len (ts_buf s')) (ts_i s') < rounds (len (ts_buf s)) (ts_i s)) as Hlt.
  { destruct Hstep as [[-> ->]|Hshort].
    - by apply rounds_advance.
    - apply rounds_shorter; [done|]. unfold len. lia. }
  destruct (IH s' Hwf') as [Hne Hlen]; [lia|]. split; [done|].
  intros out Hout. specialize (Hlen out Hout).
  destruct Hstep as [[Heq _]|Hshort]; [by rewrite <- Heq|lia].
Qed.
End Truncate.

(** truncateSilences always comes to an end, with a buffer or with the
    RangeError of a read past the last whole sample. *)
Lemma truncateSilences_ends buf maxSamples threshold :
  truncateSilences buf maxSamples threshold ≠ OutOfFuel.
Proof.
  unfold truncateSilences.
  apply ts_loop_ends; [done|]. simpl. apply rounds_start.
Qed.

(** What truncateSilences returns is never longer than its input. *)
Lemma truncateSilences_length buf maxSamples threshold out :
  truncateSilences buf maxSamples threshold = Returned out →
  (length out ≤ length buf)%nat.
Proof.
  unfold truncateSilences. intros H.
  eapply (ts_loop_ends maxSamples threshold _ (TsState buf 0 0 None)); [done| |done].
  simpl. apply rounds_start.
Qed.
End LoopsEnd.

(** * chunkBuffer *)

Section ChunkBuffer.
Import Buffer Audio Invariant.
Variables minSamples maxLength threshold : Z.

Lemma cb_body_step s s' :
  cb_wf s → cb_body minSamples maxLength threshold s = Returned s' →
  cb_wf s' ∧ 0 ≤ cb_i s ≤ len (cb_buf s) - 2
  ∧ cb_bytes s' = cb_bytes s
  ∧ ((cb_buf s' = cb_buf s ∧ cb_i s' = cb_i s + 2)
     ∨ (length (cb_buf s') < length (cb_buf s))%nat).
Proof.
  destruct s as [bufs buf i start end_ marks]. unfold cb_wf, cb_bytes, cb_body. simpl.
  intros [Hend Hmarks].
  destruct (readInt16LE buf i) as [v| |] eqn:Hread; simpl; [|done|done].
  apply readInt16LE_range in Hread.
  destruct (v <? threshold).
  { intros [= <-]. simpl. repeat split; try done; try lia; by left. }
  destruct end_ as [e|];
    [|intros [= <-]; simpl; repeat split; try done; try lia; by left].
  destruct (minSamples <? e - start + 2);
    [|intros [= <-]; simpl; repeat split; try done; try lia; by left].
  destruct (i <? maxLength).
  { intros [= <-]. simpl. repeat split; try done; try lia; [|by left].
    apply Forall_app. split; [done|]. constructor; [lia|done]. }
  destruct (last marks) as [mark|] eqn:Hlast; [|done].
  intros [= <-]. simpl.
  apply last_Some_elem_of in Hlast.
  rewrite Forall_forall in Hmarks. specialize (Hmarks _ Hlast).
  repeat split; try done; try lia.
  - rewrite join_app. simpl. rewrite (right_id_L [] (++)), <- (assoc_L (++)).
    by rewrite slice_split.
  - right. rewrite slice_from_drop, length_drop.
    rewrite clamp_in_range by lia. unfold len in *. lia.
Qed.

Lemma cb_body_not_out_of_fuel s :
  cb_body minSamples maxLength threshold s ≠ OutOfFuel.
Proof.
  unfold cb_body. pose proof (readInt16LE_not_out_of_fuel (cb_buf s) (cb_i s)).
  destruct (readInt16LE _ _); simpl; [|done|done].
  destruct (_ <? _); [done|]. destruct (cb_end s); [|done].
  destruct (_ <? _); [|done]. destruct (_ <? _); [done|]. by destruct (last _).
Qed.

Lemma cb_loop_ends fuel : ∀ s,
  cb_wf s → rounds (len (cb_buf s)) (cb_i s) ≤ Z.of_nat fuel →
  cb_loop fuel minSamples maxLength threshold s ≠ OutOfFuel
  ∧ ∀ chunks, cb_loop fuel minSamples maxLength threshold s = Returned chunks →
      ∃ cuts rest, chunks = cuts ++ [rest] ∧ mjoin cuts ++ rest = cb_bytes s.
Proof.
  induction fuel as [|fuel IH]; intros s Hwf Hfuel.
  { pose proof (rounds_pos (len (cb_buf s)) (cb_i s)). lia. }
  simpl. destruct (cb_i s <? len (cb_buf s)) eqn:Hi.
  2:{ split; [done|]. intros chunks [= <-]. by exists (cb_bufs s), (cb_buf s). }
  pose proof (cb_body_not_out_of_fuel s) as Hbody.
  destruct (cb_body minSamples maxLength threshold s) as [s'| |] eqn:Hs';
    simpl; [|done|done].
  destruct (cb_body_step s s' Hwf Hs') as (Hwf' & Hrange & Hbytes & Hstep).
  assert (rounds (len (cb_buf s')) (cb_i s') < rounds (len (cb_buf s)) (cb_i s)) as Hlt.
  { destruct Hstep as [[-> ->]|Hshort].
    - by apply rounds_advance.
    - apply rounds_shorter; [done|]. unfold len. lia. }
  destruct (IH s' Hwf') as [Hne Hchunks]; [lia|]. split; [done|].
  intros chunks Hout. rewrite <- Hbytes. by apply Hchunks.
Qed.
End ChunkBuffer.

(** * The frames of startConversation *)

Section Frames.
Import Buffer Conversation.

Lemma slice_take_drop (buf : Buffer.t) a b :
  0 ≤ a ≤ b → b ≤ len buf →
  slice buf a b = take (Z.to_nat (b - a)) (drop (Z.to_nat a) buf).
Proof.
  intros Ha Hb. unfold slice. rewrite !clamp_in_range by lia.
  f_equal. lia.
Qed.

Lemma write_frames_spec (buf : Buffer.t) fuel : ∀ i,
  0 ≤ i → (Z.to_nat (len buf - i) < fuel)%nat →
  ∃ frames, write_frames fuel buf i = Returned frames
            ∧ mjoin frames = drop (Z.to_nat i) buf
            ∧ Forall (fun frame => len frame ≤ 16000) frames
            ∧ ∀ before final, frames = before ++ [final] →
                Forall (fun frame => len frame = 16000) before.
Proof.
  induction fuel as [|fuel IH]; intros i Hi Hfuel; [lia|]. simpl.
  destruct (i <? len buf) eqn:Hlt; zbool.
  2:{ exists []. split; [done|]. split.
      { rewrite drop_ge; [done|]. unfold len in *. lia. }
      split; [done|]. intros before final H. by destruct before. }
  destruct (i + 16000 <? len buf) eqn:Hnext; zbool.
  - destruct (IH (i + 16000)) as (frames & -> & Hjoin & Hsize & Hfull); [lia|lia|].
    simpl. eexists. split; [done|].
    rewrite slice_take_drop by lia.
    replace (Z.to_nat (i + 16000 - i)) with (Z.to_nat 16000) by lia.
    split; [|split].
    + simpl. rewrite Hjoin.
      replace (Z.to_nat (i + 16000)) with (Z.to_nat i + Z.to_nat 16000)%nat by lia.
      rewrite <- drop_drop. apply take_drop.
    + constructor; [|done]. unfold len. rewrite length_take. lia.
    + intros before final H. destruct before as [|frame before].
      * done.
      * injection H as <- H. constructor; [|by eapply Hfull].
        unfold len in *. rewrite length_take, length_drop. lia.
  - destruct fuel as [|fuel]; [unfold len in *; lia|]. simpl.
    rewrite (proj2 (Z.ltb_ge _ _)) by lia. simpl.
    eexists. split; [done|].
    rewrite slice_take_drop by lia.
    split; [|split].
    + simpl. rewrite (right_id_L [] (++)). apply take_ge.
      rewrite length_drop. unfold len in *. lia.
    + constructor; [|done]. unfold len in *. rewrite length_take, length_drop. lia.
    + intros before final H. destruct before as [|frame [|? ?]]; done.
Qed.

(** What startConversation writes for a buffer in continued mode: the
    buffer in frames of 16000 bytes, then the Int16Array [silence]. *)
Lemma startConversation_writes_spec (buf : Buffer.t) :
  ∃ frames,
    startConversation_writes (Some buf) true
    = Returned ((WBuffer <$> frames) ++ [WInt16Array silence])
    ∧ Buffer.concat frames = buf
    ∧ Forall (fun frame => len frame ≤ 16000) frames
    ∧ ∀ before final, frames = before ++ [final] →
        Forall (fun frame => len frame = 16000) before.
Proof.
  destruct (write_frames_spec buf (S (length buf)) 0)
    as (frames & Hframes & Hjoin & Hrest); [done|unfold len; lia|].
  exists frames. unfold startConversation_writes. rewrite Hframes. done.
Qed.
End Frames.

(** * The relay dispatcher *)

Section RelayFacts.
Import Js Relay Cache.
Variable host : Host.
Variable config : Config.
Implicit Types (fs : gmap string (list byte)) (req : Request).

Lemma strict_eq_str_true v s : strict_eq_str v s = true ↔ v = Str s.
Proof.
  destruct v; simpl; try (split; [done|by intros [=]]).
  rewrite String.eqb_eq. split; [by intros ->|by intros [= ->]].
Qed.

(** The check of the relayKey passes only with the key that is
    configured for the user. *)
Lemma authorized_key user relayKey :
  is_nullish relayKey = false →
  authorized host config user relayKey = Some true →
  ∃ name u, str host user = Some name ∧ users config !! name = Some u
            ∧ relayKey = Str (Relay.relayKey u).
Proof.
  unfold authorized, obj_get. intros Hnn.
  destruct (str host user) as [name|]; [|done]. simpl.
  destruct (users config !! name) as [u|] eqn:Hu.
  - intros [= H]. exists name, u. split; [done|]. split; [done|].
    by apply strict_eq_str_true.
  - destruct (bool_decide _); [|done]. intros [= H]. by destruct relayKey.
Qed.

Lemma authorized_converts user relayKey :
  is_Some (authorized host config user relayKey) ↔ is_Some (str host user).
Proof.
  unfold authorized. destruct (str host user); simpl; [by split; eauto|done].
Qed.

Lemma dispatch_status fs req :
  status (response (dispatch host config fs req)) = 200
  ∨ status (response (dispatch host config fs req)) = 500.
Proof.
  unfold dispatch, or_throws, respond, uncaught. cbv [mbind option_bind].
  repeat (case_match; simplify_eq/=; auto).
Qed.

(** Where dispatch throws, nothing was started. *)
Lemma dispatch_effects fs req :
  status (response (dispatch host config fs req)) ≠ 200 →
  effects (dispatch host config fs req) = [].
Proof.
  unfold dispatch, or_throws, respond, uncaught. cbv [mbind option_bind].
  repeat (case_match; simplify_eq/=; auto); done.
Qed.

(** The handler after its log line: the check of the relayKey decides. *)
Lemma post_checked fs req :
  is_nullish (command req) = false → is_nullish (user req) = false →
  is_nullish (body_relayKey req) = false →
  is_Some (str host (command req)) → is_Some (str host (user req)) →
  is_Some (str host (delayInSecs req)) →
  ∃ known, authorized host config (user req) (body_relayKey req) = Some known
           ∧ post host config fs req
             = if known then dispatch host config fs req
               else respond 403 "Access denied." [].
Proof.
  intros H1 H2 H3 [c Hc] [u Hu] [d Hd]. unfold post. rewrite H1, H2, H3, Hc, Hu, Hd.
  simpl. destruct (proj2 (authorized_converts (user req) (body_relayKey req)))
    as [known Hknown]; [by exists u|].
  rewrite Hknown. simpl. by exists known.
Qed.

(** The handler where its log line throws. *)
Lemma post_thrown fs req :
  is_nullish (command req) = false → is_nullish (user req) = false →
  is_nullish (body_relayKey req) = false →
  str host (command req) = None ∨ str host (user req) = None
  ∨ str host (delayInSecs req) = None →
  post host config fs req = uncaught TypeError.
Proof.
  intros H1 H2 H3 H. unfold post. rewrite H1, H2, H3. simpl.
  destruct (str host (command req)); [|done]. simpl.
  destruct (str host (user req)); [|done]. simpl.
  destruct (str host (delayInSecs req)); [|done]. by destruct H as [?|[?|?]].
Qed.

Lemma reaches_tts_spec req :
  reaches_tts host config req = true →
  (is_nullish (command req) = false ∧ is_nullish (user req) = false
   ∧ is_nullish (body_relayKey req) = false)
  ∧ (is_Some (str host (command req)) ∧ is_Some (str host (user req))
     ∧ is_Some (str host (delayInSecs req)))
  ∧ authorized host config (user req) (body_relayKey req) = Some true
  ∧ on_route (broadcastAudio config) (path req) = false
  ∧ on_route (chromecastTTS config) (path req) = true.
Proof.
  unfold reaches_tts. intros H. repeat (apply andb_prop in H as [H ?]).
  repeat match goal with
         | H : negb _ = true |- _ => apply negb_true_iff in H
         | H : bool_decide _ = true |- _ => apply bool_decide_eq_true_1 in H
         end.
  done.
Qed.

Lemma post_tts fs req :
  reaches_tts host config req = true →
  post host config fs req
  = or_throws
      (encodedCommand ← encodedCommand host config req;
       text ← str host (command req);
       Some (respond 200 ("Played " +:+ text +:+ " via Chromecast.")
               (match fs !! (cachePath config +:+ "/" +:+ encodedCommand +:+ ".mp3") with
                | Some _ => []
                | None => [SynthesizeSpeech (command req) (voice_of config req)
                             (cachePath config +:+ "/" +:+ encodedCommand +:+ ".mp3")]
                end
                ++ [SetTimeout (cast_media host config (user req)
                                  (Str (static_url host config (encodedCommand +:+ ".mp3")))
                                  (Str "audio/mp3"))
                               (timeout_of (delayInSecs req))]))).
Proof.
  intros H. apply reaches_tts_spec in H
    as ((H1 & H2 & H3) & (Hc & Hu & Hd) & Hauth & Hba & Htts).
  destruct (post_checked fs req H1 H2 H3 Hc Hu Hd) as (known & Hknown & ->).
  rewrite Hauth in Hknown. injection Hknown as <-.
  unfold dispatch. rewrite Hba, Htts. by destruct Hu as [u ->].
Qed.

Lemma encodedCommand_same req1 req2 :
  command req1 = command req2 → voice req1 = voice req2 →
  encodedCommand host config req1 = encodedCommand host config req2.
Proof. intros Hc Hv. unfold encodedCommand, voice_of. by rewrite Hc, Hv. Qed.

Lemma cache_file_same req1 req2 :
  command req1 = command req2 → voice req1 = voice req2 →
  cache_file host config req1 = cache_file host config req2.
Proof. intros Hc Hv. unfold cache_file. by rewrite (encodedCommand_same req1 req2). Qed.

Lemma synthesized_once_after_success fs req1 req2 audio :
  synthesized_once host config fs req1 req2 (Some audio).
Proof.
  intros H1 H2 Hc Hv.
  split; [by apply cache_file_same|]. unfold two_posts, after_callbacks. simpl.
  rewrite (post_tts fs req1 H1). rewrite post_tts by done.
  rewrite <- (encodedCommand_same req1 req2 Hc Hv), <- Hc.
  destruct (encodedCommand host config req1) as [file|]; simpl;
    [|unfold synth_calls; simpl; split; [lia|done]].
  destruct (str host (command req1)) as [text|]; simpl;
    [|unfold synth_calls; simpl; split; [lia|done]].
  unfold synth_calls, respond. simpl.
  destruct (fs !! _) as [content|] eqn:Hfs; simpl.
  - rewrite Hfs. simpl. split; [lia|done].
  - unfold synthesized. rewrite lookup_insert_eq. simpl. split; [lia|done].
Qed.
End RelayFacts.

(** * The properties of the specification *)

Section AudioClaims.
Import Buffer Audio Samples Stated.

(** chunkBuffer always comes to an end: with chunks, with the
    ChunkingImpossible error, or with the RangeError of a read past the
    last whole sample. *)
Lemma chunkBuffer_ends (buf : Buffer.t) minSamples maxLength threshold :
  chunkBuffer buf minSamples maxLength threshold ≠ OutOfFuel.
Proof.
  unfold chunkBuffer.
  apply cb_loop_ends; [by split|]. simpl. apply rounds_start.
Qed.

(** C1, about truncateSilences(buffer, maxSilenceSamples, threshold):
    every maximal run of silent samples of the result should have at
    most maxSilenceSamples samples. The loop cuts a run only when it
    reads the non-silent sample after it, so the run that the end of
    the buffer ends stays: one loud sample and three silent ones come
    back as they are with maxSamples = 2, with a run of three samples
    (six bytes). *)
Theorem truncateSilences_trailing_run_kept :
  truncateSilences (of_samples [1000; 0; 0; 0]) 2 100
  = Returned (of_samples [1000; 0; 0; 0])
  ∧ silent_runs (silent 100) (samples (of_samples [1000; 0; 0; 0])) = [3%nat]
  ∧ runs_within 100 2 (of_samples [1000; 0; 0; 0]) = false.
Proof. by vm_compute. Qed.

(** C2, about a buffer that is entirely silent, which should come back
    as a single run of maxSilenceSamples silent samples. The loop cuts
    a run only when it reads the non-silent sample after it, and a
    silent buffer has none: five silent samples come back as five with
    maxSamples = 4, a run above the bound whether it is counted in
    samples or in bytes. It is the cut after the loop, missing for C1,
    that is missing here. *)
Theorem truncateSilences_silent_buffer_kept :
  truncateSilences (of_samples [0; 0; 0; 0; 0]) 4 100
  = Returned (of_samples [0; 0; 0; 0; 0])
  ∧ all_silent 100 (of_samples [0; 0; 0; 0; 0]) = true
  ∧ silent_runs (silent 100) (samples (of_samples [0; 0; 0; 0; 0])) = [5%nat]
  ∧ ¬ all_silent_truncated (of_samples [0; 0; 0; 0; 0]) 4 100.
Proof.
  split; [by vm_compute|]. split; [by vm_compute|]. split; [by vm_compute|].
  intros H. destruct H as (out & Hout & _ & Hlen); [by vm_compute|].
  vm_compute in Hout. injection Hout as <-. by vm_compute in Hlen.
Qed.

(** C3 as stated fails: a run of three silent samples is within
    maxSilenceSamples = 4 samples, but it spans six bytes and the loop
    compares bytes, so its first sample goes. *)
Lemma unchanged_when_runs_short_fails :
  ¬ unchanged_when_runs_short (of_samples [0; 0; 0; 1000]) 4 100.
Proof.
  intros H. specialize (H eq_refl). vm_compute in H. discriminate.
Qed.

(** C3, amended: a buffer of whole samples in which no silent run
    spans more than maxSilenceSamples bytes (two bytes a sample) is
    returned as it is; and for an even
    maxSilenceSamples that is not negative, truncateSilences returns on
    every buffer of whole samples, and returns its own result
    unchanged. *)
Theorem truncateSilences_fixpoint (buf : Buffer.t) maxSamples threshold :
  even_length buf = true →
  (runs_within_bytes threshold maxSamples buf = true →
   truncateSilences buf maxSamples threshold = Returned buf)
  ∧ (Z.even maxSamples = true → 0 ≤ maxSamples →
     ∃ out, truncateSilences buf maxSamples threshold = Returned out
            ∧ truncateSilences out maxSamples threshold = Returned out).
Proof.
  intros Heven. split.
  - intros Hruns. apply truncateSilences_unchanged; [done|].
    unfold runs_within_bytes, silent_runs in Hruns.
    rewrite forallb_app in Hruns. by apply andb_prop in Hruns as [? _].
  - intros Hev H0.
    destruct (truncateSilences_result buf maxSamples threshold Heven Hev H0)
      as (out & Hout & Heven' & Hruns & _).
    exists out. split; [done|]. by apply truncateSilences_unchanged.
Qed.

Lemma truncateSilences_fixpoint_witness :
  truncateSilences (of_samples [1000; 0; 0; 1000; 0; 1000; 0; 0]) 4 100
  = Returned (of_samples [1000; 0; 0; 1000; 0; 1000; 0; 0])
  ∧ ∃ out, truncateSilences (of_samples [1000; 0; 0; 1000; 0; 1000; 0; 0]) 4 100
           = Returned out
           ∧ truncateSilences out 4 100 = Returned out.
Proof.
  destruct (truncateSilences_fixpoint (of_samples [1000; 0; 0; 1000; 0; 1000; 0; 0]) 4 100)
    as [Hsame Hidem]; [reflexivity|].
  split.
  - apply Hsame. reflexivity.
  - apply Hidem; [reflexivity|lia].
Defined.

(** With an odd maxSamples the cut is not a whole number of samples:
    the result has an odd length, and a second pass reads past its
    end. *)
Example truncateSilences_odd_maxSamples :
  truncateSilences (of_samples [0; 1000]) 1 100 = Returned [x00; xe8; x03]
  ∧ truncateSilences [x00; xe8; x03] 1 100 = Thrown RangeError.
Proof. by vm_compute. Qed.

(** Runs of 6, 2 and 5 silent samples with maxSamples = 8: the closed
    runs are cut to 8 bytes, that is 4 samples, and the run at the end
    is kept. *)
Example truncateSilences_three_runs :
  (out ←! truncateSilences
            (of_samples [900; 0; 0; 0; 0; 0; 0; 900; 0; 0; 900; 0; 0; 0; 0; 0]) 8 100 ;;
   Returned (samples out))
  = Returned [900; 0; 0; 0; 0; 900; 0; 0; 900; 0; 0; 0; 0; 0].
Proof. by vm_compute. Qed.

(** C4: when chunkBuffer(buffer, minSilenceSamples, maxChunkLength,
    threshold) returns, the chunks in order make up the buffer, and
    the last chunk is what was left of the buffer after the cuts. *)
Theorem chunkBuffer_concat (buf : Buffer.t) minSamples maxLength threshold chunks :
  chunkBuffer buf minSamples maxLength threshold = Returned chunks →
  Buffer.concat chunks = buf
  ∧ ∃ cuts rest, chunks = cuts ++ [rest] ∧ buf = Buffer.concat cuts ++ rest.
Proof.
  unfold chunkBuffer. intros H.
  destruct (cb_loop_ends minSamples maxLength threshold (loop_fuel (length buf))
              (CbState [] buf 0 0 None [])) as [_ Hchunks].
  { by split. }
  { simpl. apply rounds_start. }
  destruct (Hchunks chunks H) as (cuts & rest & -> & Hbytes).
  unfold Invariant.cb_bytes in Hbytes. simpl in Hbytes.
  split; [|by exists cuts, rest].
  unfold Buffer.concat. rewrite join_app. simpl. by rewrite (right_id_L [] (++)).
Qed.

Lemma chunkBuffer_concat_witness :
  Buffer.concat [of_samples [1000; 0; 0]; of_samples [1000; 0; 0; 1000]]
  = of_samples [1000; 0; 0; 1000; 0; 0; 1000]
  ∧ ∃ cuts rest,
      [of_samples [1000; 0; 0]; of_samples [1000; 0; 0; 1000]] = cuts ++ [rest]
      ∧ of_samples [1000; 0; 0; 1000; 0; 0; 1000] = Buffer.concat cuts ++ rest.
Proof.
  apply (chunkBuffer_concat (of_samples [1000; 0; 0; 1000; 0; 0; 1000]) 2 10 100).
  reflexivity.
Defined.

(** C5, about chunkBuffer failing with ChunkingImpossible on a buffer
    longer than maxChunkLength that has no long enough silent run
    before that length. The length is looked at only where a long
    enough silent run ends: three loud samples (six bytes) with
    maxLength = 4 come back as one chunk of six bytes, and nothing is
    thrown. *)
Theorem chunkBuffer_no_silence_one_chunk :
  chunkBuffer (of_samples [1000; 1000; 1000]) 2 4 100
  = Returned [of_samples [1000; 1000; 1000]]
  ∧ len (of_samples [1000; 1000; 1000]) = 6.
Proof. by vm_compute. Qed.

(** The error is thrown where a long enough silent run ends at or after
    maxLength with no mark before it. *)
Example chunkBuffer_throws :
  chunkBuffer (of_samples [1000; 1000; 0; 0; 1000]) 2 4 100 = Thrown ChunkingImpossible.
Proof. by vm_compute. Qed.

(** C9, about the writes of a conversation that starts in continued
    mode with a buffer: the buffer goes out in order in frames of
    16000 bytes (the last one may be shorter), and then [silence] is
    written, which holds 32000 samples, not the 16000 of one second at
    16 kHz. *)
Theorem startConversation_writes_silence (buf : Buffer.t) :
  ∃ frames,
    Conversation.startConversation_writes (Some buf) true
    = Returned ((Conversation.WBuffer <$> frames)
                ++ [Conversation.WInt16Array Conversation.silence])
    ∧ Buffer.concat frames = buf
    ∧ Forall (fun frame => len frame ≤ 16000) frames
    ∧ (∀ before final, frames = before ++ [final] →
         Forall (fun frame => len frame = 16000) before)
    ∧ Z.of_nat (length Conversation.silence) = 32000
    ∧ Forall (fun sample => sample = 0) Conversation.silence.
Proof.
  destruct (startConversation_writes_spec buf) as (frames & H1 & H2 & H3 & H4).
  exists frames. do 4 (split; [done|]). split.
  - unfold Conversation.silence. rewrite length_replicate. lia.
  - unfold Conversation.silence. by apply Forall_replicate.
Qed.
End AudioClaims.

Section RelayClaims.
Import Js Relay Cache.

(** C6 as stated fails: when the synthesis of the first request fails
    (or has not called back yet) no file is written, and the second
    request calls the synthesis again. *)
Lemma synthesized_once_fails :
  ¬ synthesized_once Example.host Example.config ∅
      (Example.request "/chromecastTTS" (Str "hello") "r3pl4ac3th153x4mpl3n0nc3")
      (Example.request "/chromecastTTS" (Str "hello") "r3pl4ac3th153x4mpl3n0nc3")
      None.
Proof.
  intros H. destruct H as (_ & Hcalls & _); try reflexivity.
  vm_compute in Hcalls. lia.
Qed.

(** C6, amended: two text-to-speech requests with the same text and
    voice resolve to the same file (the sha1 digest of the text and of
    languageCode_gender_name); when the synthesis of the first request
    succeeded and its file was written before the second request is
    handled, the second finds the file and makes no synthesis call, so
    that at most one call is made for the two. *)
Theorem tts_synthesized_once (host : Host) (config : Config)
    (fs : gmap string (list byte)) (req1 req2 : Request) (audio : list byte) :
  reaches_tts host config req1 = true → reaches_tts host config req2 = true →
  command req1 = command req2 → voice req1 = voice req2 →
  cache_file host config req1 = cache_file host config req2
  ∧ (synth_calls (two_posts host config fs req1 req2 (Some audio)).1
     + synth_calls (two_posts host config fs req1 req2 (Some audio)).2 ≤ 1)%nat
  ∧ synth_calls (two_posts host config fs req1 req2 (Some audio)).2 = 0%nat.
Proof. apply synthesized_once_after_success. Qed.

Lemma tts_synthesized_once_witness :
  let req := Example.request "/chromecastTTS" (Str "hello") "r3pl4ac3th153x4mpl3n0nc3" in
  let posts := two_posts Example.host Example.config ∅ req req (Some [x49; x44; x33]) in
  cache_file Example.host Example.config req = cache_file Example.host Example.config req
  ∧ (synth_calls posts.1 + synth_calls posts.2 ≤ 1)%nat
  ∧ synth_calls posts.2 = 0%nat.
Proof.
  apply (tts_synthesized_once Example.host Example.config ∅
           (Example.request "/chromecastTTS" (Str "hello") "r3pl4ac3th153x4mpl3n0nc3")
           (Example.request "/chromecastTTS" (Str "hello") "r3pl4ac3th153x4mpl3n0nc3")
           [x49; x44; x33]).
  - reflexivity.
  - reflexivity.
  - reflexivity.
  - reflexivity.
Defined.

(** C7 as stated fails: the log line of the handler turns command, user
    and delayInSecs into text before the relayKey is looked at, and a
    command that is an object with an own property toString cannot be
    turned into text: the handler throws, and the answer is 500, not
    403. *)
Lemma denied_fails :
  ¬ Stated.denied Example.host Example.config ∅
      (Example.request "/custom" Example.unprintable "wrong").
Proof.
  intros H. destruct H as [Hstatus _]; try reflexivity.
  - intros name u Hname Hu. vm_compute in Hname. injection Hname as <-.
    vm_compute in Hu. injection Hu as <-. discriminate.
  - vm_compute in Hstatus. discriminate.
Qed.

(** C7, amended: a request that has command, user and relayKey, whose
    relayKey is not the key configured for the user (compared as it
    is, case and all), or whose user is not configured, starts
    nothing, whatever route it came in on; and it is answered 403 when
    its command, user and delayInSecs can be turned into text. *)
Theorem post_denied (host : Host) (config : Config) (fs : gmap string (list byte))
    (req : Request) :
  is_nullish (command req) = false →
  is_nullish (user req) = false →
  is_nullish (body_relayKey req) = false →
  (∀ name u, str host (user req) = Some name → users config !! name = Some u →
             body_relayKey req ≠ Str (relayKey u)) →
  effects (post host config fs req) = []
  ∧ (is_Some (str host (command req)) → is_Some (str host (user req)) →
     is_Some (str host (delayInSecs req)) →
     post host config fs req = respond 403 "Access denied." []).
Proof.
  intros H1 H2 H3 Hkey.
  assert (is_Some (str host (command req)) → is_Some (str host (user req)) →
          is_Some (str host (delayInSecs req)) →
          post host config fs req = respond 403 "Access denied." []) as Hdenied.
  { intros Hc Hu Hd.
    destruct (post_checked host config fs req H1 H2 H3 Hc Hu Hd) as ([|] & Hauth & ->);
      [|done].
    destruct (authorized_key host config _ _ H3 Hauth) as (name & u & Hname & Hu' & Heq).
    by destruct (Hkey name u). }
  split; [|done].
  destruct (str host (command req)) as [c|] eqn:Hc;
    [|by rewrite post_thrown by auto].
  destruct (str host (user req)) as [u|] eqn:Hu;
    [|by rewrite post_thrown by auto].
  destruct (str host (delayInSecs req)) as [d|] eqn:Hd;
    [|by rewrite post_thrown by auto].
  by rewrite Hdenied.
Qed.

Lemma post_denied_witness :
  effects (post Example.host Example.config ∅
             (Example.request "/chromecastTTS" (Str "hello") "R3PL4AC3TH153X4MPL3N0NC3"))
  = []
  ∧ post Example.host Example.config ∅
      (Example.request "/chromecastTTS" (Str "hello") "R3PL4AC3TH153X4MPL3N0NC3")
    = respond 403 "Access denied." [].
Proof.
  destruct (post_denied Example.host Example.config ∅
              (Example.request "/chromecastTTS" (Str "hello") "R3PL4AC3TH153X4MPL3N0NC3"))
    as [Hnone Hdenied].
  - reflexivity.
  - reflexivity.
  - reflexivity.
  - intros name u Hname Hu. vm_compute in Hname. injection Hname as <-.
    vm_compute in Hu. injection Hu as <-. discriminate.
  - split; [exact Hnone|]. apply Hdenied; by eexists.
Defined.

(** C8, about the cast-control route accepting every SEEK with a
    currentTime that is an integer and not negative. The test for the
    presence of currentTime is its truthiness, and 0 is not truthy: a
    SEEK to 0 with the right relayKey is answered 500 and nothing is
    sent to the controller. *)
Theorem post_seek_zero_rejected :
  post Example.host Example.config ∅ (Example.seek (Num (Integral 0)))
  = respond 500 "Malfored request." []
  ∧ isInteger (Num (Integral 0)) = true ∧ ge_zero (Num (Integral 0)) = true.
Proof. by vm_compute. Qed.

(** The other SEEK requests are handled as specified. *)
Example post_seek_positive :
  post Example.host Example.config ∅ (Example.seek (Num (Integral 132)))
  = respond 200 "Send control request SEEK via Chromecast."
      [SetTimeout (CastControl (Some "global")
                     (Cast.CommandObj (Str "SEEK") (Num (Integral 132)))) Millis0].
Proof. by vm_compute. Qed.

Example post_seek_negative :
  post Example.host Example.config ∅ (Example.seek (Num (Integral (-5))))
  = respond 500 "Malfored request." [].
Proof. by vm_compute. Qed.

(** control itself also takes a SEEK to 0 for an invalid one. *)
Example control_seek_zero :
  Cast.control (Cast.Devices {[ "global" := ("192.168.0.9", 8009) ]} None)
    (Cast.Players {[ "global" := Some () ]} Cast.ObjectPrototype)
    (Some "global") (Cast.CommandObj (Str "SEEK") (Num (Integral 0)))
  = Cast.InvalidSeek.
Proof. by vm_compute. Qed.

(** The test of the cast-control branch holds exactly for PLAY, PAUSE
    and STOP, and for SEEK with a currentTime that is an integer greater
    than zero. *)
Lemma control_guard (command currentTime : value) :
  truthy command
  && (strict_eq_str command Cast.PLAY
      || strict_eq_str command Cast.PAUSE
      || strict_eq_str command Cast.STOP
      || (strict_eq_str command Cast.SEEK
          && truthy currentTime && isInteger currentTime && ge_zero currentTime))
  = true
  ↔ command = Str "PLAY" ∨ command = Str "PAUSE" ∨ command = Str "STOP"
    ∨ (command = Str "SEEK" ∧ ∃ z, currentTime = Num (Integral z) ∧ 0 < z).
Proof.
  split.
  - intros H. apply andb_prop in H as [_ H].
    repeat (apply orb_prop in H as [H|H]).
    + left. by apply strict_eq_str_true.
    + right; left. by apply strict_eq_str_true.
    + right; right; left. by apply strict_eq_str_true.
    + do 3 right. repeat (apply andb_prop in H as [H ?]).
      split; [by apply strict_eq_str_true|].
      destruct currentTime as [| |b|[z|q|neg]|s|elements|fields]; try done.
      exists z. split; [done|]. simpl in *.
      destruct (z =? 0) eqn:Hz; [done|]. zbool. lia.
  - intros [->|[->|[->|[-> (z & -> & Hz)]]]]; try done.
    simpl. rewrite (proj2 (Z.eqb_neq z 0)), (proj2 (Z.leb_le 0 z)) by lia. done.
Qed.

(** On the cast-control route a request is passed on to the controller
    exactly under that test, and is answered 500 otherwise. *)
Lemma control_accepted (host : Host) (config : Config) (fs : gmap string (list byte))
    (req : Request) :
  on_route (broadcastAudio config) (path req) = false →
  on_route (chromecastTTS config) (path req) = false →
  on_route (chromecastAudio config) (path req) = false →
  on_route (chromecastURL config) (path req) = false →
  on_route (chromecastControl config) (path req) = true →
  is_Some (str host (user req)) →
  (effects (dispatch host config fs req) ≠ []
   ↔ (command req = Str "PLAY" ∨ command req = Str "PAUSE" ∨ command req = Str "STOP"
      ∨ (command req = Str "SEEK"
         ∧ ∃ z, body_currentTime req = Num (Integral z) ∧ 0 < z)))
  ∧ (effects (dispatch host config fs req) = [] →
     dispatch host config fs req = respond 500 "Malfored request." []).
Proof.
  intros H1 H2 H3 H4 H5 [u Hu]. unfold dispatch. rewrite H1, H2, H3, H4, H5, Hu.
  rewrite <- control_guard.
  destruct (truthy (command req) && _) eqn:Hguard; simpl.
  - apply control_guard in Hguard.
    assert (∃ text, command req = Str text) as [text ->]
      by (destruct Hguard as [?|[?|[?|[? _]]]]; by eexists).
    simpl. split; [|discriminate]. split; [done|]. intros _. discriminate.
  - split; [|done]. split; [done|discriminate].
Qed.

(** C10 as stated fails: a request with the empty command and a user
    that is an object with an own property toString passes the field
    check, but the log line that follows throws on the user: the
    handler gets neither to the check of the relayKey nor to a branch,
    and Express answers for it. *)
Lemma empty_command_proceeds_fails :
  ¬ Stated.empty_command_proceeds Example.host Example.config ∅
      (Example.request_of Example.unprintable "/chromecastControl" (Str EmptyString)
         "r3pl4ac3th153x4mpl3n0nc3").
Proof.
  intros H. destruct H as [_ [H|H]]; try reflexivity; vm_compute in H; discriminate.
Qed.

(** The same on the other log line, and with the key of the user: a
    request without a user whose command cannot be turned into text is
    answered 500, not 400; and a request with the right key whose
    delayInSecs cannot be turned into text is answered 500 and starts
    nothing. *)
Example post_log_line_throws :
  post Example.host Example.config ∅
    (Example.request_of Undefined "/custom" Example.unprintable "r3pl4ac3th153x4mpl3n0nc3")
  = uncaught TypeError
  ∧ post Example.host Example.config ∅
      {| path := "/custom"; command := Str "hello"; user := Str "global";
         body_relayKey := Str "r3pl4ac3th153x4mpl3n0nc3";
         delayInSecs := Arr [Num (Integral 1); Example.unprintable];
         voice := Undefined; contentType := Undefined; body_currentTime := Undefined;
         broadcastAudioResponse := Undefined |}
    = uncaught TypeError.
Proof. by vm_compute. Qed.

(** C10, amended: the field check answers 400 only when command, user
    or relayKey is null or absent, and then whenever the log line can
    turn command and user into text; a request whose command is the
    empty string, and whose user and delayInSecs can be turned into
    text, goes on to the check of the relayKey and to the branches. *)
Theorem post_field_validation (host : Host) (config : Config)
    (fs : gmap string (list byte)) (req : Request) :
  (status (response (post host config fs req)) = 400
   ↔ (is_nullish (command req) = true ∨ is_nullish (user req) = true
      ∨ is_nullish (body_relayKey req) = true)
     ∧ is_Some (str host (command req)) ∧ is_Some (str host (user req)))
  ∧ (command req = Str EmptyString →
     is_nullish (user req) = false → is_nullish (body_relayKey req) = false →
     is_Some (str host (user req)) → is_Some (str host (delayInSecs req)) →
     ∃ known, authorized host config (user req) (body_relayKey req) = Some known
              ∧ post host config fs req
                = if known then dispatch host config fs req
                  else respond 403 "Access denied." []).
Proof.
  split.
  - unfold post.
    destruct (is_nullish (command req) || is_nullish (user req)
              || is_nullish (body_relayKey req)) eqn:Hnull.
    + assert (is_nullish (command req) = true ∨ is_nullish (user req) = true
              ∨ is_nullish (body_relayKey req) = true) as Hany.
      { apply orb_prop in Hnull as [Hnull|?]; [|by auto].
        apply orb_prop in Hnull as [?|?]; by auto. }
      assert (is_Some (str host (if truthy (body_relayKey req) then Str "[Redacted]"
                                 else body_relayKey req))) as [k Hk].
      { destruct (body_relayKey req) as [| |[|]|[z|q|neg]|s|elements|fields];
          simpl; try by eexists.
        - by destruct (z =? 0); eexists.
        - by destruct (String.eqb s EmptyString); eexists. }
      rewrite Hk.
      destruct (str host (command req)) as [c|]; simpl;
        [|split; [done|by intros (_ & [? [=]] & _)]].
      destruct (str host (user req)) as [u|]; simpl;
        [|split; [done|by intros (_ & _ & [? [=]])]].
      split; [|done]. intros _. split; [done|]. by split; eexists.
    + apply orb_false_elim in Hnull as [Hnull H3].
      apply orb_false_elim in Hnull as [H1 H2].
      split; [|intros ([?|[?|?]] & _); congruence].
      unfold or_throws. cbv [mbind option_bind].
      destruct (str host (command req)); [|done].
      destruct (str host (user req)); [|done].
      destruct (str host (delayInSecs req)); [|done].
      destruct (authorized _ _ _ _) as [[|]|]; simpl; [|done|done].
      destruct (dispatch_status host config fs req) as [-> | ->]; done.
  - intros Hcommand H2 H3 Hu Hd.
    apply post_checked; [by rewrite Hcommand|done|done| |done|done].
    rewrite Hcommand. by eexists.
Qed.

Lemma post_field_validation_witness :
  post Example.host Example.config ∅
    (Example.request "/custom" (Str EmptyString) "r3pl4ac3th153x4mpl3n0nc3")
  = respond 200 "Executed "
      [SetTimeout (SendTextInput (Str EmptyString) (Str "global") Undefined) Millis0].
Proof.
  destruct (post_field_validation Example.host Example.config ∅
              (Example.request "/custom" (Str EmptyString) "r3pl4ac3th153x4mpl3n0nc3"))
    as [_ H].
  destruct H as (known & Hknown & ->); try reflexivity; try (by eexists).
  vm_compute in Hknown. injection Hknown as <-. reflexivity.
Defined.
End RelayClaims.

(** * More about truncateSilences *)

Section TruncateMore.
Import Buffer Audio Samples Shape Invariant.

Lemma readInt16LE_thrown (buf : Buffer.t) k e :
  readInt16LE buf k = Thrown e → e = RangeError.
Proof.
  unfold readInt16LE. destruct (_ || _); [by intros [= <-]|].
  destruct (buf !! _); [|by intros [= <-]].
  destruct (buf !! _); [done|by intros [= <-]].
Qed.

Lemma readInt16LE_returns (buf : Buffer.t) k :
  0 ≤ k ≤ len buf - 2 → ∃ v, readInt16LE buf k = Returned v.
Proof.
  intros Hk. unfold readInt16LE.
  rewrite (proj2 (Z.ltb_ge k 0)), (proj2 (Z.ltb_ge _ _)) by lia. simpl.
  destruct (lookup_lt_is_Some_2 buf (Z.to_nat k)) as [lo ->]; [unfold len in *; lia|].
  destruct (lookup_lt_is_Some_2 buf (S (Z.to_nat k))) as [hi ->]; [unfold len in *; lia|].
  by eexists.
Qed.

Lemma ts_body_thrown maxSamples threshold s e :
  ts_body maxSamples threshold s = Thrown e → e = RangeError.
Proof.
  unfold ts_body.
  destruct (readInt16LE _ _) as [v|e'|] eqn:Hread; simpl; [| |done].
  - destruct (_ <? _); [done|]. destruct (ts_end s); [|done]. by destruct (_ <? _).
  - intros [= <-]. by eapply readInt16LE_thrown.
Qed.

Lemma ts_loop_thrown maxSamples threshold fuel : ∀ s e,
  ts_loop fuel maxSamples threshold s = Thrown e → e = RangeError.
Proof.
  induction fuel as [|fuel IH]; intros s e; simpl; [done|].
  destruct (_ <? _); [|done].
  destruct (ts_body maxSamples threshold s) as [s'|e'|] eqn:Hbody; simpl; [|  |done].
  - apply IH.
  - intros [= <-]. by eapply ts_body_thrown.
Qed.

(** X1: truncateSilences always comes to an end, for every buffer and
    every maxSamples and threshold: it returns a buffer that is not
    longer than the one it was given, or it throws the RangeError of
    readInt16LE; it throws nothing else. *)
Theorem truncateSilences_returns_or_RangeError (buf : Buffer.t) maxSamples threshold :
  (∃ out, truncateSilences buf maxSamples threshold = Returned out ∧ len out ≤ len buf)
  ∨ truncateSilences buf maxSamples threshold = Thrown RangeError.
Proof.
  destruct (truncateSilences buf maxSamples threshold) as [out|e|] eqn:H.
  - left. exists out. split; [done|].
    apply truncateSilences_length in H. unfold len. lia.
  - right. f_equal. unfold truncateSilences in H. by eapply ts_loop_thrown.
  - by destruct (truncateSilences_ends buf maxSamples threshold).
Qed.

(** X2: on a buffer of whole samples, with an even maxSamples that is
    not negative, truncateSilences returns a buffer of whole samples in
    which no silent run that a non-silent sample ends spans more than
    maxSamples bytes. *)
Theorem truncateSilences_cuts_closed_runs (buf : Buffer.t) maxSamples threshold :
  even_length buf = true → Z.even maxSamples = true → 0 ≤ maxSamples →
  ∃ out, truncateSilences buf maxSamples threshold = Returned out
         ∧ even_length out = true
         ∧ closed_runs_within_bytes threshold maxSamples out = true.
Proof.
  intros Heven Hev H0.
  destruct (truncateSilences_result buf maxSamples threshold Heven Hev H0)
    as (out & Hout & Heven' & Hruns & _).
  by exists out.
Qed.

Lemma truncateSilences_cuts_closed_runs_witness :
  ∃ out, truncateSilences (of_samples [900; 0; 0; 0; 0; 0; 900; 0; 0; 0]) 4 100 = Returned out
         ∧ even_length out = true
         ∧ closed_runs_within_bytes 100 4 out = true.
Proof.
  apply (truncateSilences_cuts_closed_runs
           (of_samples [900; 0; 0; 0; 0; 0; 900; 0; 0; 0]) 4 100).
  - reflexivity.
  - reflexivity.
  - lia.
Defined.

Section Lists.
Context {A : Type} (quiet : A → bool).

Lemma filter_loud_silent (l : list A) :
  forallb quiet l = true → List.filter (fun x => negb (quiet x)) l = [].
Proof.
  induction l as [|x l IH]; simpl; [done|].
  intros H. apply andb_prop in H as [-> H]. simpl. by apply IH.
Qed.

(** The truncation removes silent elements only. *)
Lemma truncate_runs_loud maxSamples (rest : list A) : ∀ run,
  forallb quiet run = true →
  List.filter (fun x => negb (quiet x)) (truncate_runs quiet maxSamples run rest)
  = List.filter (fun x => negb (quiet x)) rest.
Proof.
  induction rest as [|x rest IH]; intros run Hrun; simpl.
  - by apply filter_loud_silent.
  - destruct (quiet x) eqn:Hx; simpl.
    + apply IH. by apply forallb_snoc.
    + destruct run as [|r run]; simpl.
      * rewrite Hx. simpl. f_equal. by apply IH.
      * rewrite List.filter_app, filter_loud_silent by by apply cut_silent.
        simpl. rewrite Hx. simpl. f_equal. by apply IH.
Qed.

Lemma trailing_run_silent (l : list A) k :
  forallb quiet l = true → trailing_run_from quiet k l = (k + length l)%nat.
Proof.
  revert k. induction l as [|x l IH]; intros k; simpl; [lia|].
  intros H. apply andb_prop in H as [-> H]. rewrite IH by done. lia.
Qed.

Lemma trailing_run_after_loud (l1 l2 : list A) x k :
  quiet x = false →
  trailing_run_from quiet k (l1 ++ x :: l2) = trailing_run_from quiet 0 l2.
Proof.
  intros Hx. revert k. induction l1 as [|y l1 IH]; intros k; simpl.
  - by rewrite Hx.
  - by destruct (quiet y).
Qed.

(** The truncation leaves the run at the end as long as it was. *)
Lemma truncate_runs_trailing maxSamples (rest : list A) : ∀ run,
  forallb quiet run = true →
  trailing_run_from quiet 0 (truncate_runs quiet maxSamples run rest)
  = trailing_run_from quiet (length run) rest.
Proof.
  induction rest as [|x rest IH]; intros run Hrun; simpl.
  - by rewrite trailing_run_silent.
  - destruct (quiet x) eqn:Hx.
    + rewrite IH by by apply forallb_snoc.
      rewrite length_app. simpl. by rewrite Nat.add_1_r.
    + destruct run as [|r run].
      * simpl. rewrite Hx. by apply (IH []).
      * rewrite trailing_run_after_loud by done. by apply (IH []).
Qed.
End Lists.

Lemma filter_fmap {A B} (f : A → B) (p : B → bool) (l : list A) :
  List.filter p (f <$> l) = f <$> List.filter (fun x => p (f x)) l.
Proof.
  induction l as [|x l IH]; [done|].
  rewrite fmap_cons. cbn [List.filter].
  destruct (p (f x)); by rewrite IH.
Qed.

Lemma trailing_run_from_fmap {A B} (f : A → B) (quiet : B → bool) (l : list A) k :
  trailing_run_from (fun x => quiet (f x)) k l = trailing_run_from quiet k (f <$> l).
Proof.
  revert k. induction l as [|x l IH]; intros k; [done|].
  rewrite fmap_cons. cbn [trailing_run_from]. by rewrite !IH.
Qed.

(** X3: with an even maxSamples that is not negative, truncateSilences
    deletes silent samples only: the samples at or above the threshold
    of a buffer of whole samples come back all, in their order. *)
Theorem truncateSilences_keeps_loud_samples (buf : Buffer.t) maxSamples threshold :
  even_length buf = true → Z.even maxSamples = true → 0 ≤ maxSamples →
  ∃ out, truncateSilences buf maxSamples threshold = Returned out
         ∧ loud_samples threshold out = loud_samples threshold buf.
Proof.
  intros Heven Hev H0. eexists. split.
  { apply truncateSilences_refines; [done|by left]. }
  unfold loud_samples, samples. rewrite pairs_flatten, !filter_fmap. f_equal.
  by apply (truncate_runs_loud (silent_pair threshold) maxSamples (pairs buf) []).
Qed.

Lemma truncateSilences_keeps_loud_samples_witness :
  ∃ out, truncateSilences (of_samples [900; 0; 0; 0; 0; 0; -700; 0; 500; 0]) 4 100
         = Returned out
         ∧ loud_samples 100 out
           = loud_samples 100 (of_samples [900; 0; 0; 0; 0; 0; -700; 0; 500; 0]).
Proof.
  apply (truncateSilences_keeps_loud_samples
           (of_samples [900; 0; 0; 0; 0; 0; -700; 0; 500; 0]) 4 100).
  - reflexivity.
  - reflexivity.
  - lia.
Defined.

(** X4: with an even maxSamples that is not negative, the silent run at
    the end of a buffer of whole samples comes back with the length it
    had, whatever maxSamples is. *)
Theorem truncateSilences_keeps_trailing_run (buf : Buffer.t) maxSamples threshold :
  even_length buf = true → Z.even maxSamples = true → 0 ≤ maxSamples →
  ∃ out, truncateSilences buf maxSamples threshold = Returned out
         ∧ trailing_run threshold out = trailing_run threshold buf.
Proof.
  intros Heven Hev H0. eexists. split.
  { apply truncateSilences_refines; [done|by left]. }
  unfold trailing_run, samples. rewrite pairs_flatten.
  rewrite <- !(trailing_run_from_fmap sample_of (silent threshold)).
  by apply (truncate_runs_trailing (silent_pair threshold) maxSamples (pairs buf) []).
Qed.

Lemma truncateSilences_keeps_trailing_run_witness :
  ∃ out, truncateSilences (of_samples [900; 0; 0; 0; 0; 900; 0; 0; 0; 0; 0]) 4 100
         = Returned out
         ∧ trailing_run 100 out
           = trailing_run 100 (of_samples [900; 0; 0; 0; 0; 900; 0; 0; 0; 0; 0]).
Proof.
  apply (truncateSilences_keeps_trailing_run
           (of_samples [900; 0; 0; 0; 0; 900; 0; 0; 0; 0; 0]) 4 100).
  - reflexivity.
  - reflexivity.
  - lia.
Defined.
End TruncateMore.

(** * More about chunkBuffer *)

Section ChunkMore.
Import Buffer Audio Samples Shape Invariant.
Variables minSamples maxLength threshold : Z.

(** What holds at the start and is kept by every round holds where the
    loop stops. *)
Lemma cb_loop_invariant (P : cb_state → Prop) :
  (∀ s s', P s → cb_i s < len (cb_buf s) →
           cb_body minSamples maxLength threshold s = Returned s' → P s') →
  ∀ fuel s, P s →
    match cb_loop fuel minSamples maxLength threshold s with
    | Returned chunks =>
        ∃ final, P final ∧ chunks = cb_bufs final ++ [cb_buf final]
    | Thrown e =>
        ∃ final, P final ∧ cb_i final < len (cb_buf final)
                 ∧ cb_body minSamples maxLength threshold final = Thrown e
    | OutOfFuel => True
    end.
Proof.
  intros Hkeep. induction fuel as [|fuel IH]; intros s Hs; simpl; [done|].
  destruct (cb_i s <? len (cb_buf s)) eqn:Hi; zbool; [|by exists s].
  destruct (cb_body minSamples maxLength threshold s) as [s'|e|] eqn:Hbody; simpl.
  - apply IH. by eapply Hkeep.
  - by exists s.
  - done.
Qed.

Lemma even_plus_2 z : 0 ≤ z ∧ Z.even z = true → 0 ≤ z + 2 ∧ Z.even (z + 2) = true.
Proof. intros [H0 H]. split; [lia|]. by rewrite Z.even_add, H. Qed.

Lemma cb_cuts_kept s s' :
  cb_wf s ∧ cb_cuts maxLength s →
  cb_body minSamples maxLength threshold s = Returned s' →
  cb_wf s' ∧ cb_cuts maxLength s'.
Proof.
  intros [Hwf (Hi & Hmarks & Hbufs)] Hbody.
  destruct (cb_body_step minSamples maxLength threshold s s' Hwf Hbody)
    as (Hwf' & Hrange & _ & _).
  split; [done|].
  destruct s as [bufs buf i start end_ marks]. unfold cb_body in Hbody.
  unfold cb_cuts in *. simpl in *.
  destruct (readInt16LE buf i) as [v| |]; simpl in Hbody; [|done|done].
  destruct (v <? threshold).
  { injection Hbody as <-. simpl. by split; [apply even_plus_2|]. }
  destruct end_ as [e|];
    [|injection Hbody as <-; simpl; by split; [apply even_plus_2|]].
  destruct (minSamples <? e - start + 2);
    [|injection Hbody as <-; simpl; by split; [apply even_plus_2|]].
  destruct (i <? maxLength) eqn:Hmax; zbool.
  { injection Hbody as <-. simpl. split; [by apply even_plus_2|]. split; [|done].
    apply Forall_app. split; [done|]. constructor; [|done]. by destruct Hi. }
  destruct (last marks) as [mark|] eqn:Hlast; [|done].
  injection Hbody as <-. simpl.
  apply last_Some_elem_of in Hlast.
  destruct Hwf as [_ Hle]. simpl in Hle.
  rewrite Forall_forall in Hmarks, Hle.
  destruct (Hmarks _ Hlast) as [Hlt Heven]. specialize (Hle _ Hlast).
  split; [done|]. split; [done|].
  apply Forall_app. split; [done|]. constructor; [|done].
  unfold cut_chunk, len. rewrite slice_0, length_take, clamp_in_range by lia.
  unfold len in *. replace (Z.of_nat (Z.to_nat mark `min` length buf)) with mark by lia.
  split; [lia|done].
Qed.

Lemma cb_whole_kept s s' :
  cb_whole maxLength s → cb_body minSamples maxLength threshold s = Returned s' →
  cb_whole maxLength s'.
Proof.
  intros (Hwf & Hcuts & Hlen) Hbody.
  destruct (cb_cuts_kept s s' (conj Hwf Hcuts) Hbody) as [Hwf' Hcuts'].
  split; [done|]. split; [done|].
  destruct s as [bufs buf i start end_ marks]. unfold cb_body in Hbody. simpl in *.
  destruct (readInt16LE buf i) as [v| |]; simpl in Hbody; [|done|done].
  destruct (v <? threshold); [by injection Hbody as <-|].
  destruct end_ as [e|]; [|by injection Hbody as <-].
  destruct (minSamples <? e - start + 2); [|by injection Hbody as <-].
  destruct (i <? maxLength); [by injection Hbody as <-|].
  destruct (last marks) as [mark|] eqn:Hlast; [|done].
  injection Hbody as <-. simpl.
  apply last_Some_elem_of in Hlast.
  destruct Hwf as [_ Hle]. destruct Hcuts as (_ & Hmarks & _). simpl in *.
  rewrite Forall_forall in Hmarks, Hle.
  destruct (Hmarks _ Hlast) as [_ Heven]. specialize (Hle _ Hlast).
  unfold len in *. rewrite slice_from_drop, length_drop, clamp_in_range
    by (unfold len; lia).
  replace (Z.of_nat (length buf - Z.to_nat mark)) with (Z.of_nat (length buf) - mark) by lia.
  by rewrite Z.even_sub, Hlen, Heven.
Qed.

(** On whole samples every read of the loop is inside the buffer. *)
Lemma cb_whole_reads s :
  cb_whole maxLength s → cb_i s < len (cb_buf s) →
  ∃ v, readInt16LE (cb_buf s) (cb_i s) = Returned v.
Proof.
  intros (Hwf & ((H0 & Hi) & _) & Hlen) Hlt. apply readInt16LE_returns.
  split; [done|].
  apply Z.even_spec in Hi as [a Ha]. apply Z.even_spec in Hlen as [b Hb]. lia.
Qed.

Lemma cb_whole_throws s e :
  cb_whole maxLength s → cb_i s < len (cb_buf s) →
  cb_body minSamples maxLength threshold s = Thrown e →
  e = ChunkingImpossible ∧ maxLength ≤ cb_i s.
Proof.
  intros Hs Hlt. destruct (cb_whole_reads s Hs Hlt) as [v Hv].
  unfold cb_body. rewrite Hv. simpl.
  destruct (_ <? _); [done|]. destruct (cb_end s); [|done].
  destruct (_ <? _); [|done]. destruct (cb_i s <? maxLength) eqn:Hmax; [done|].
  zbool. destruct (last _); [done|]. by intros [= <-].
Qed.

Lemma even_length_len (buf : Buffer.t) :
  even_length buf = true → Z.even (len buf) = true.
Proof.
  unfold even_length, len. intros H.
  apply Nat.even_spec in H as [k Hk]. apply Z.even_spec. exists (Z.of_nat k). lia.
Qed.

Lemma cb_start_whole (buf : Buffer.t) :
  even_length buf = true → cb_whole maxLength (CbState [] buf 0 0 None []).
Proof.
  intros Heven. repeat split; simpl; try done. by apply even_length_len.
Qed.

(** X5: every chunk that chunkBuffer returns, but the last, was cut
    at a mark: it is not empty, holds whole samples, and is shorter than
    maxLength. *)
Theorem chunkBuffer_cut_chunks (buf : Buffer.t) (chunks : list Buffer.t) :
  chunkBuffer buf minSamples maxLength threshold = Returned chunks →
  ∃ cuts rest, chunks = cuts ++ [rest] ∧ Forall (cut_chunk maxLength) cuts.
Proof.
  unfold chunkBuffer. intros H.
  pose proof (cb_loop_invariant (fun s => cb_wf s ∧ cb_cuts maxLength s)
                (fun s s' Hs _ Hbody => cb_cuts_kept s s' Hs Hbody)
                (loop_fuel (length buf)) (CbState [] buf 0 0 None [])) as Hinv.
  rewrite H in Hinv.
  destruct Hinv as (final & [_ (_ & _ & Hbufs)] & ->); [by repeat split|].
  by exists (cb_bufs final), (cb_buf final).
Qed.

(** X6: on a buffer of whole samples chunkBuffer never reads past the
    end: it returns its chunks, or throws ChunkingImpossible, and that
    only for a buffer that is longer than maxLength. *)
Theorem chunkBuffer_whole_samples (buf : Buffer.t) :
  even_length buf = true →
  (∃ chunks, chunkBuffer buf minSamples maxLength threshold = Returned chunks)
  ∨ (chunkBuffer buf minSamples maxLength threshold = Thrown ChunkingImpossible
     ∧ maxLength < len buf).
Proof.
  intros Heven.
  pose proof (cb_loop_invariant
                (fun s => cb_whole maxLength s ∧ len (cb_buf s) ≤ len buf)) as Hinv.
  specialize (Hinv) with (fuel := loop_fuel (length buf))
                         (s := CbState [] buf 0 0 None []).
  pose proof (chunkBuffer_ends buf minSamples maxLength threshold) as Hends.
  unfold chunkBuffer in *.
  destruct (cb_loop _ _ _ _ _) as [chunks|e|]; [by left; exists chunks| |done].
  right. destruct Hinv as (final & [Hwhole Hle] & Hlt & Hthrown).
  - intros s s' [Hs Hle] _ Hbody. split; [by eapply cb_whole_kept|].
    destruct Hs as (Hwf & _).
    destruct (cb_body_step _ _ _ s s' Hwf Hbody) as (_ & _ & _ & [[-> _]|Hshort]);
      [done|unfold len in *; lia].
  - split; [by apply cb_start_whole|done].
  - destruct (cb_whole_throws final e Hwhole Hlt Hthrown) as [-> Hmax].
    split; [done|lia].
Qed.

(** X7: a buffer of whole samples that is not longer than maxLength
    comes back as one chunk, the buffer itself. *)
Theorem chunkBuffer_short_buffer (buf : Buffer.t) :
  even_length buf = true → len buf ≤ maxLength →
  chunkBuffer buf minSamples maxLength threshold = Returned [buf].
Proof.
  intros Heven Hshort.
  pose proof (cb_loop_invariant
                (fun s => cb_whole maxLength s ∧ cb_bufs s = [] ∧ cb_buf s = buf)) as Hinv.
  specialize (Hinv) with (fuel := loop_fuel (length buf))
                         (s := CbState [] buf 0 0 None []).
  pose proof (chunkBuffer_ends buf minSamples maxLength threshold) as Hends.
  unfold chunkBuffer in *.
  destruct (cb_loop _ _ _ _ _) as [chunks|e|]; [| |done].
  - destruct Hinv as (final & (_ & Hbufs & Hbuf) & ->).
    + intros s s' (Hs & Hbufs & Hbuf) Hlt Hbody. split; [by eapply cb_whole_kept|].
      destruct s as [bufs cur i start end_ marks]. unfold cb_body in Hbody.
      simpl in *. subst bufs cur.
      destruct (readInt16LE buf i) as [v| |]; simpl in Hbody; [|done|done].
      destruct (v <? threshold); [by injection Hbody as <-|].
      destruct end_ as [e|]; [|by injection Hbody as <-].
      destruct (minSamples <? e - start + 2); [|by injection Hbody as <-].
      destruct (i <? maxLength) eqn:Hmax; [by injection Hbody as <-|].
      zbool. lia.
    + split; [by apply cb_start_whole|done].
    + by rewrite Hbufs, Hbuf.
  - exfalso. destruct Hinv as (final & (Hwhole & _ & Hbuf) & Hlt & Hthrown).
    + intros s s' (Hs & Hbufs & Hbuf) Hlt Hbody. split; [by eapply cb_whole_kept|].
      destruct s as [bufs cur i start end_ marks]. unfold cb_body in Hbody.
      simpl in *. subst bufs cur.
      destruct (readInt16LE buf i) as [v| |]; simpl in Hbody; [|done|done].
      destruct (v <? threshold); [by injection Hbody as <-|].
      destruct end_ as [e'|]; [|by injection Hbody as <-].
      destruct (minSamples <? e' - start + 2); [|by injection Hbody as <-].
      destruct (i <? maxLength) eqn:Hmax; [by injection Hbody as <-|].
      zbool. lia.
    + split; [by apply cb_start_whole|done].
    + destruct (cb_whole_throws final e Hwhole Hlt Hthrown) as [_ Hmax].
      rewrite Hbuf in Hlt. lia.
Qed.
End ChunkMore.

Section ChunkWitnesses.
Import Buffer Audio Samples Shape.

Lemma chunkBuffer_cut_chunks_witness :
  ∃ cuts rest,
    [of_samples [1000; 0; 0]; of_samples [1000; 0; 0; 1000]] = cuts ++ [rest]
    ∧ Forall (cut_chunk 10) cuts.
Proof.
  apply (chunkBuffer_cut_chunks 2 10 100 (of_samples [1000; 0; 0; 1000; 0; 0; 1000])).
  reflexivity.
Defined.

Lemma chunkBuffer_whole_samples_witness :
  (∃ chunks, chunkBuffer (of_samples [1000; 1000; 0; 0; 1000]) 2 4 100 = Returned chunks)
  ∨ (chunkBuffer (of_samples [1000; 1000; 0; 0; 1000]) 2 4 100 = Thrown ChunkingImpossible
     ∧ 4 < len (of_samples [1000; 1000; 0; 0; 1000])).
Proof.
  apply (chunkBuffer_whole_samples 2 4 100 (of_samples [1000; 1000; 0; 0; 1000])).
  reflexivity.
Defined.

Lemma chunkBuffer_short_buffer_witness :
  chunkBuffer (of_samples [1000; 0; 0; 0; 1000; 0]) 2 12 100
  = Returned [of_samples [1000; 0; 0; 0; 1000; 0]].
Proof.
  apply (chunkBuffer_short_buffer 2 12 100 (of_samples [1000; 0; 0; 0; 1000; 0])).
  - reflexivity.
  - vm_compute. discriminate.
Defined.
End ChunkWitnesses.

(** * More about the relay dispatcher and the controller *)

Section RelayMore.
Import Js Relay.
Variable host : Host.
Variable config : Config.
Implicit Types (fs : gmap string (list byte)) (req : Request).

(** X8: a request that is answered 200 has scheduled exactly one
    deferred action, with the delay of the request, after at most one
    synthesis call; a request that is answered anything else has started
    nothing. *)
Theorem post_acknowledged fs req :
  (status (response (post host config fs req)) = 200
   ∧ ∃ synth a,
       effects (post host config fs req)
       = synth ++ [SetTimeout a (timeout_of (delayInSecs req))]
       ∧ (synth = [] ∨ ∃ text voice file, synth = [SynthesizeSpeech text voice file]))
  ∨ (status (response (post host config fs req)) ≠ 200
     ∧ effects (post host config fs req) = []).
Proof.
  unfold post, dispatch, or_throws, respond, uncaught. cbv [mbind option_bind].
  repeat case_match; simplify_eq/=;
    first [ by right
          | left; split; [done|]; eexists [], _; split; [done|by left]
          | left; split; [done|]; eexists [_], _; split; [done|right; by eexists _, _, _] ].
Qed.

Lemma authorized_own user relayKey name u :
  str host user = Some name → users config !! name = Some u →
  authorized host config user relayKey = Some (strict_eq_str relayKey (Relay.relayKey u)).
Proof. intros Hname Hu. unfold authorized, obj_get. rewrite Hname. simpl. by rewrite Hu. Qed.

(** X9: a request that has a command, whose command, user and
    delayInSecs can be turned into text, and that carries the key
    configured for its user is never turned away: it is neither
    answered 400 nor 403, and goes to the branch of its route. *)
Theorem post_accepts_configured_key fs req name u :
  is_nullish (command req) = false →
  is_Some (str host (command req)) → is_Some (str host (delayInSecs req)) →
  str host (user req) = Some name → users config !! name = Some u →
  user req ≠ Null → user req ≠ Undefined →
  body_relayKey req = Str (Relay.relayKey u) →
  post host config fs req = dispatch host config fs req
  ∧ status (response (post host config fs req)) ≠ 400
  ∧ status (response (post host config fs req)) ≠ 403.
Proof.
  intros Hc Hcommand Hdelay Hname Hu Hn1 Hn2 Hkey.
  assert (post host config fs req = dispatch host config fs req) as ->.
  { destruct (post_checked host config fs req) as (known & Hknown & ->);
      [done|by destruct (user req)|by rewrite Hkey|done|by eexists|done|].
    rewrite (authorized_own _ _ name u Hname Hu), Hkey in Hknown. simpl in Hknown.
    rewrite String.eqb_refl in Hknown. by injection Hknown as <-. }
  split; [done|].
  destruct (dispatch_status host config fs req) as [-> | ->]; done.
Qed.

(** Whoever gets anything started has shown the key of a configured
    user. *)
Lemma post_effects_authorized fs req :
  effects (post host config fs req) ≠ [] →
  post host config fs req = dispatch host config fs req
  ∧ ∃ name u, str host (user req) = Some name ∧ users config !! name = Some u
              ∧ body_relayKey req = Str (Relay.relayKey u).
Proof.
  unfold post.
  destruct (is_nullish (command req) || is_nullish (user req)) eqn:H1;
    [simpl; unfold or_throws; cbv [mbind option_bind]; by repeat case_match|].
  destruct (is_nullish (body_relayKey req)) eqn:H3;
    [simpl; unfold or_throws; cbv [mbind option_bind]; by repeat case_match|].
  simpl. unfold or_throws. cbv [mbind option_bind].
  destruct (str host (command req)); [|done].
  destruct (str host (user req)) eqn:Hu; [|done].
  destruct (str host (delayInSecs req)); [|done].
  destruct (authorized _ _ _ _) as [[|]|] eqn:Hauth; [|done|done].
  intros _. split; [done|].
  destruct (authorized_key host config _ _ H3 Hauth) as (name & u & Hname & Hfound & Hkey).
  exists name, u. split; [congruence|done].
Qed.

Lemma friendlyName_own user name u :
  str host user = Some name → users config !! name = Some u →
  friendlyName host config user = Some (chromecastFriendlyName u).
Proof.
  intros Hname Hu. unfold friendlyName, obj_get. rewrite Hname. simpl. by rewrite Hu.
Qed.

Ltac scheduled Hin :=
  repeat (apply elem_of_cons in Hin as [Hin|Hin]);
  try (by apply elem_of_nil in Hin).

(** X10: media is cast, and playback controlled, only on the device of
    the configured user whose key the request carried. *)
Theorem post_casts_to_own_device fs req (name : option string) a t :
  SetTimeout a t ∈ effects (post host config fs req) →
  (∃ url type, a = CastMedia name url type) ∨ (∃ ctl, a = CastControl name ctl) →
  ∃ key u, str host (user req) = Some key ∧ users config !! key = Some u
           ∧ body_relayKey req = Str (Relay.relayKey u)
           ∧ name = chromecastFriendlyName u.
Proof.
  intros Hin Ha.
  destruct (post_effects_authorized fs req) as (Hpost & key & u & Hkey & Hu & Hshown).
  { intros Hnil. rewrite Hnil in Hin. by apply elem_of_nil in Hin. }
  exists key, u. do 3 (split; [done|]).
  rewrite Hpost in Hin.
  unfold dispatch, or_throws, cast_media, cast_control, respond, uncaught in Hin.
  rewrite (friendlyName_own _ key u Hkey Hu), Hkey in Hin.
  cbv [mbind option_bind] in Hin.
  repeat case_match; simplify_eq/=; scheduled Hin;
    destruct Ha as [(url & type & ->)|(ctl & ->)]; by simplify_eq.
Qed.

(** X11: a sound is broadcast only if it is configured under the name
    in the command, with the format LINEAR16: file and format come from
    the configuration, never from the request. *)
Theorem post_broadcasts_configured_sound fs req file who format t :
  SetTimeout (SendBroadcastAudio file who format) t ∈ effects (post host config fs req) →
  ∃ name sound, str host (command req) = Some name
                ∧ broadcastAudio_sounds config !! name = Some sound
                ∧ file = bs_path sound ∧ format = "LINEAR16" ∧ who = user req.
Proof.
  intros Hin.
  destruct (post_effects_authorized fs req) as (Hpost & _).
  { intros Hnil. rewrite Hnil in Hin. by apply elem_of_nil in Hin. }
  rewrite Hpost in Hin.
  unfold dispatch, or_throws, cast_media, cast_control, respond, uncaught, obj_get in Hin.
  cbv [mbind option_bind] in Hin.
  destruct (on_route (broadcastAudio config) (path req)).
  - destruct (str host (command req)) as [name|]; [|by apply elem_of_nil in Hin].
    destruct (broadcastAudio_sounds config !! name) as [sound|] eqn:Hs.
    + destruct (String.eqb (bs_format sound) "LINEAR16") eqn:Hf; simpl in Hin;
        [|by apply elem_of_nil in Hin].
      apply String.eqb_eq in Hf.
      destruct (str host (user req)); [|by apply elem_of_nil in Hin].
      apply list_elem_of_singleton in Hin. injection Hin as -> -> -> _.
      by exists name, sound.
    + destruct (bool_decide _); simpl in Hin; by apply elem_of_nil in Hin.
  - repeat case_match; simplify_eq/=; scheduled Hin; by simplify_eq.
Qed.

(** What the cast-control branch schedules went through its test. *)
Lemma post_control_checked fs req name ctl t :
  SetTimeout (CastControl name ctl) t ∈ effects (post host config fs req) →
  ctl = Cast.CommandObj (command req)
          (if strict_eq_str (command req) Cast.SEEK then body_currentTime req
           else Undefined)
  ∧ (command req = Str "PLAY" ∨ command req = Str "PAUSE" ∨ command req = Str "STOP"
     ∨ (command req = Str "SEEK"
        ∧ ∃ z, body_currentTime req = Num (Integral z) ∧ 0 < z)).
Proof.
  intros Hin.
  destruct (post_effects_authorized fs req) as (Hpost & _).
  { intros Hnil. rewrite Hnil in Hin. by apply elem_of_nil in Hin. }
  rewrite Hpost in Hin.
  unfold dispatch, or_throws, cast_media, cast_control, respond, uncaught in Hin.
  cbv [mbind option_bind] in Hin.
  rewrite <- control_guard.
  repeat case_match; simplify_eq/=; scheduled Hin; by simplify_eq.
Qed.

(** X12: what the dispatcher passes to control, control acts on: when
    the device is known and players[serviceName] is a player, every
    control call that post schedules ends in a call of the player,
    never in a rejected seek or an ignored type. *)
Theorem scheduled_control_reaches_player fs req name ctl t
    (chromecasts : Cast.devices) (players : Cast.players) :
  SetTimeout (CastControl name ctl) t ∈ effects (post host config fs req) →
  Cast.device chromecasts (default "undefined" name) ≠ Missing →
  Cast.player_of players (default "undefined" name) = Cast.ThePlayer →
  Chromecast.reaches_player (Cast.control chromecasts players name ctl) = true.
Proof.
  intros Hin Hdev Hplayer.
  destruct (post_control_checked fs req name ctl t Hin) as [-> Hok].
  unfold Cast.control. rewrite Hplayer.
  destruct (Cast.device chromecasts _) as [device| |]; [| |done];
    (destruct Hok as [->|[->|[->|[-> (z & -> & Hz)]]]];
     unfold Cast.PLAY, Cast.PAUSE, Cast.STOP, Cast.SEEK; simpl; [done|done|done|]);
    by rewrite (proj2 (Z.eqb_neq z 0)), (proj2 (Z.leb_le 0 z)) by lia.
Qed.
End RelayMore.

Section ControlMore.
Import Js.

(** X13: control seeks only to a currentTime that is an integer
    greater than zero, on a type that is SEEK, for a service name under
    which chromecasts has a truthy value and players has a player. *)
Theorem control_seeks_positive_integer
    (chromecasts : Cast.devices) (players : Cast.players)
    (serviceName : option string) (c : Cast.commandObj) (time : value) :
  Cast.control chromecasts players serviceName c = Cast.PlayerSeek time →
  Cast.type c = Str "SEEK" ∧ time = Cast.currentTime c
  ∧ (∃ z, time = Num (Integral z) ∧ 0 < z)
  ∧ Cast.device chromecasts (default "undefined" serviceName) ≠ Missing
  ∧ Cast.player_of players (default "undefined" serviceName) = Cast.ThePlayer.
Proof.
  unfold Cast.control.
  destruct (Cast.player_of players _) eqn:Hp;
    destruct (Cast.device chromecasts _) as [dev| |];
    repeat case_match; try done;
    intros [= <-];
    (split; [by apply strict_eq_str_true|]); (split; [done|]);
    (split; [|done]).
  all: match goal with
       | H : _ || _ = false |- _ =>
           apply orb_false_elim in H as [H Hge];
           apply orb_false_elim in H as [Htr Hint]
       end;
       destruct (Cast.currentTime c) as [| |b|[z|q|neg]|s|elements|fields]; try done;
       exists z; split; [done|]; simpl in *;
       destruct (z =? 0) eqn:Hz; [done|]; destruct (0 <=? z) eqn:Hle; [|done];
       zbool; lia.
Qed.
End ControlMore.

(** * The conversation callbacks *)

Section SessionMore.
Import Buffer Audio Samples Session.
Variable saveAudioFiles : bool.
Variables users assistants : gset string.
Variable conv : conversation.
Implicit Types (buffers : gmap Z (list byte)) (evs : list event).

Lemma on_event_not_ended buffers ev :
  is_ended ev = false →
  audioBuffers (Session.on_event saveAudioFiles users assistants conv buffers ev)
  = match ev with
    | AudioData audioData =>
        <[counter conv := default [] (buffers !! counter conv) ++ audioData]> buffers
    | _ => buffers
    end.
Proof.
  destruct ev; simpl; try done.
  - unfold on_response. by destruct (_ && _).
  - unfold on_audio_data. intros _. destruct (buffers !! counter conv); simpl; [|done].
    unfold Buffer.concat. simpl. by rewrite (right_id_L [] (++)).
Qed.

Lemma after_events_audio evs : ∀ buffers,
  forallb (fun ev => negb (is_ended ev)) evs = true →
  Session.after_events saveAudioFiles users assistants conv buffers evs
  = match audio_frames evs with
    | [] => buffers
    | frames =>
        <[counter conv := default [] (buffers !! counter conv) ++ mjoin frames]> buffers
    end.
Proof.
  induction evs as [|ev evs IH]; intros buffers Hevs; [done|].
  simpl in Hevs. apply andb_prop in Hevs as [Hev Hevs].
  apply negb_true_iff in Hev.
  unfold Session.after_events. simpl.
  fold (Session.after_events saveAudioFiles users assistants conv
          (audioBuffers (Session.on_event saveAudioFiles users assistants conv buffers ev))
          evs).
  rewrite IH by done. rewrite on_event_not_ended by done.
  unfold audio_frames. destruct ev; simpl; try done.
  fold (audio_frames evs). destruct (audio_frames evs) as [|frame frames].
  - simpl. by rewrite (right_id_L [] (++)).
  - rewrite lookup_insert_eq. simpl. rewrite insert_insert_eq.
    by rewrite <- !(assoc_L (++)).
Qed.

(** X14: as long as the conversation has not ended, its entry of
    audioBuffers holds the audio-data frames that came in, in their
    order, after what it held before; the other callbacks leave it as
    it is. *)
Theorem audio_data_accumulates buffers evs :
  forallb (fun ev => negb (is_ended ev)) evs = true →
  audio_frames evs ≠ [] →
  Session.after_events saveAudioFiles users assistants conv buffers evs !! counter conv
  = Some (default [] (buffers !! counter conv) ++ mjoin (audio_frames evs)).
Proof.
  intros Hevs Hframes. rewrite after_events_audio by done.
  destruct (audio_frames evs); [done|]. by rewrite lookup_insert_eq.
Qed.

(** X15: the callbacks of a conversation never touch the audio of
    another conversation. *)
Theorem other_conversations_untouched buffers evs (other : Z) :
  other ≠ counter conv →
  Session.after_events saveAudioFiles users assistants conv buffers evs !! other
  = buffers !! other.
Proof.
  intros Hother. revert buffers.
  induction evs as [|ev evs IH]; intros buffers; [done|].
  unfold Session.after_events. simpl.
  fold (Session.after_events saveAudioFiles users assistants conv
          (audioBuffers (Session.on_event saveAudioFiles users assistants conv buffers ev))
          evs).
  rewrite IH. destruct ev as [text| |finished|audioData| | | |failed continue|];
    simpl; try done.
  - unfold on_response. by destruct (_ && _).
  - unfold on_audio_data. destruct (buffers !! counter conv); simpl;
      by rewrite lookup_insert_ne.
  - unfold Session.on_ended. destruct failed; [done|].
    destruct (buffers !! counter conv); [|done].
    destruct (conv_broadcastAudioResponse conv); simpl.
    + destruct (truncateSilences _ _ _); simpl; try done.
      destruct (throws _); simpl; [done|]. by rewrite lookup_delete_ne.
    + by rewrite lookup_delete_ne.
Qed.

(** X16: when a conversation ends without an error and its callback
    runs through, its entry of audioBuffers is gone. *)
Theorem ended_releases_buffer buffers continueConversation :
  thrown (Session.on_ended saveAudioFiles users assistants conv buffers false
            continueConversation) = None →
  audioBuffers (Session.on_ended saveAudioFiles users assistants conv buffers false
                  continueConversation) !! counter conv = None.
Proof.
  unfold Session.on_ended.
  destruct (buffers !! counter conv) as [audio|] eqn:Hb; [|done].
  destruct (conv_broadcastAudioResponse conv); simpl.
  - pose proof (truncateSilences_ends audio MAX_SILENCE_LENGTH SILENCE_THRESHOLD).
    destruct (truncateSilences _ _ _); simpl; try done.
    destruct (throws _); simpl; [done|]. intros _. apply lookup_delete_eq.
  - intros _. apply lookup_delete_eq.
Qed.

(** X17: when a conversation that asked for its audio answer to be
    broadcast ends without an error, with audio of whole samples, the
    audio is truncated with the bound 8000 and the threshold 100; what is
    handed to the broadcast has no silent run before a non-silent sample
    of more than 8000 bytes, and is dropped when it is still longer than
    280000 bytes; the file that is saved holds the audio as it came; the
    entry of the conversation is deleted. *)
Theorem ended_broadcasts_truncated_audio buffers audio continueConversation :
  conv_broadcastAudioResponse conv = true →
  buffers !! counter conv = Some audio →
  even_length audio = true →
  conv_user conv ∈ users → conv_user conv ∈ assistants →
  ∃ out,
    truncateSilences audio MAX_SILENCE_LENGTH SILENCE_THRESHOLD = Returned out
    ∧ closed_runs_within_bytes SILENCE_THRESHOLD MAX_SILENCE_LENGTH out = true
    ∧ Session.on_ended saveAudioFiles users assistants conv buffers false
        continueConversation
      = Handled (delete (counter conv) buffers)
          ((if saveAudioFiles
            then [WriteFileSync ("./audio-" +:+ pretty (counter conv) +:+ ".lpcm16") audio]
            else [])
           ++ (if MAX_BUFFER_LENGTH <? len out then []
               else [AssistantStart
                       (BroadcastPreface (conv_user conv) out AUDIO_OUT_LINEAR16)])
           ++ continue_or_end assistants conv continueConversation)
          (continue_throws assistants conv continueConversation).
Proof.
  intros Hbar Hb Heven Huser Hready.
  destruct (truncateSilences_result audio MAX_SILENCE_LENGTH SILENCE_THRESHOLD)
    as (out & Hout & _ & Hruns & _); [done|done|done|].
  exists out. split; [done|]. split; [done|].
  unfold Session.on_ended. rewrite Hb, Hbar, Hout.
  unfold sendBroadcastAudioBuffer.
  rewrite (bool_decide_eq_true_2 _ Huser), (bool_decide_eq_true_2 _ Hready). simpl.
  by destruct (MAX_BUFFER_LENGTH <? len out).
Qed.
End SessionMore.

Section BroadcastFlow.
Import Buffer Audio Samples Session.

Lemma join_full_frames (frames : list Buffer.t) :
  Forall (fun frame => len frame = 16000) frames →
  len (mjoin frames) = 16000 * Z.of_nat (length frames).
Proof.
  unfold len. induction 1 as [|frame frames Hframe _ IH]; simpl; [done|].
  rewrite length_app. lia.
Qed.

(** The frames of a buffer of at most 280000 bytes are at most 18. *)
Lemma frames_bound (frames : list Buffer.t) :
  (∀ before final, frames = before ++ [final] →
     Forall (fun frame => len frame = 16000) before) →
  len (mjoin frames) ≤ MAX_BUFFER_LENGTH →
  (length frames ≤ 18)%nat.
Proof.
  intros Hfull Hlen.
  destruct (decide (frames = [])) as [->|Hne]; [simpl; lia|].
  destruct (proj2 (last_is_Some frames) Hne) as [final Hlast].
  apply last_Some in Hlast as [before ->].
  specialize (Hfull before final eq_refl). apply join_full_frames in Hfull.
  rewrite join_app in Hlen. unfold len, MAX_BUFFER_LENGTH in *.
  rewrite length_app in *. simpl. lia.
Qed.

(** X18: sendBroadcastAudioBuffer starts a conversation only for a
    configured user and a buffer of at most 280000 bytes. The
    conversation it starts writes nothing; the conversation that
    continues it writes the buffer, in at most 18 frames, and then the
    silence. *)
Theorem broadcast_audio_goes_out_in_second_turn (users assistants : gset string)
    (buf : option Buffer.t) (user format : string) (r : start_request) (n m : Z) :
  sendBroadcastAudioBuffer users assistants buf user format = inr (Some r) →
  ∃ b, buf = Some b ∧ len b ≤ MAX_BUFFER_LENGTH ∧ user ∈ users
       ∧ r = BroadcastPreface user b format
       ∧ writes (opened n r).1 = Returned []
       ∧ counter (opened m (Continue (opened n r).1)).1 = n
       ∧ ∃ frames,
           writes (opened m (Continue (opened n r).1)).1
           = Returned ((Conversation.WBuffer <$> frames)
                       ++ [Conversation.WInt16Array Conversation.silence])
           ∧ Buffer.concat frames = b
           ∧ (length frames ≤ 18)%nat.
Proof.
  unfold sendBroadcastAudioBuffer.
  destruct (bool_decide (user ∈ users)) eqn:Huser; [|done]. simpl.
  destruct buf as [b|]; [|done].
  destruct (MAX_BUFFER_LENGTH <? len b) eqn:Hlen; [done|].
  destruct (bool_decide (user ∈ assistants)); [|done]. simpl.
  intros [= <-]. zbool. apply bool_decide_eq_true_1 in Huser.
  exists b. do 4 (split; [done|]). simpl. split; [done|]. split; [done|].
  unfold writes. simpl.
  destruct (startConversation_writes_spec b) as (frames & Hw & Hjoin & _ & Hfull).
  exists frames. split; [done|]. split; [done|].
  apply frames_bound; [done|]. unfold Buffer.concat in Hjoin. by rewrite Hjoin.
Qed.
End BroadcastFlow.

(** * Building the routes *)

Section StartupMore.
Import Startup.

Lemma bind_routes_exit_2 relays : ∀ compositeRoute relayRoutes,
  bind_routes relays compositeRoute relayRoutes = Exit 2
  ↔ compositeRoute = [] ∧ Forall (fun kv => entry_on kv.2 = false) relays.
Proof.
  induction relays as [|[k e] relays IH]; intros c m; simpl.
  - destruct c as [|r c]; simpl; [by split|]. split; [done|by intros [? _]].
  - destruct (entry_on e) eqn:Hon.
    + assert (bind_routes relays (c ++ [entry_route e]) (<[k:=entry_route e]> m) ≠ Exit 2)
        as Hpush.
      { intros H. apply IH in H as [H _]. by destruct c. }
      split.
      * destruct (negb _); [done|]. by destruct (no_route e).
      * intros [_ H]. inversion H as [|? ? Hoff]; subst. simpl in Hoff. congruence.
    + rewrite IH. split; intros [-> H]; (split; [done|]).
      * by constructor.
      * by inversion H.
Qed.

(** X19: start-up ends with exit code 2 exactly when no relay of the
    configuration is on. *)
Theorem build_routes_exit_2 (relays : list (string * entry)) :
  build_routes relays = Exit 2 ↔ Forall (fun kv => entry_on kv.2 = false) relays.
Proof.
  unfold build_routes. rewrite bind_routes_exit_2. by split; [intros [_ ?]|].
Qed.

Lemma bind_routes_binds relays : ∀ compositeRoute relayRoutes c m,
  bind_routes relays compositeRoute relayRoutes = Routes c m →
  NoDup relays.*1 →
  (∀ k, k ∈ relays.*1 → relayRoutes !! k = None) →
  (∀ r, r ∈ compositeRoute → r ∈ c)
  ∧ (∀ k, k ∉ relays.*1 → m !! k = relayRoutes !! k)
  ∧ (∀ k e, (k, e) ∈ relays →
       (entry_on e = true → entry_route e ∈ c)
       ∧ (k ∈ validRelays →
          bound m k = entry_on e ∧ (entry_on e = true → no_route e = false))).
Proof.
  induction relays as [|[k0 e0] relays IH]; intros c0 m0 c m Hbind Hnodup Hfresh;
    simpl in *.
  - destruct (_ =? 0); [done|]. injection Hbind as <- <-.
    split; [done|]. split; [done|]. intros k e H. by apply elem_of_nil in H.
  - apply NoDup_cons in Hnodup as [Hk0 Hnodup].
    assert (∀ r, (∀ k, k ∈ relays.*1 → (<[k0:=r]> m0) !! k = None)) as Hfresh'.
    { intros r k Hk. rewrite lookup_insert_ne; [|by intros <-].
      apply Hfresh. by right. }
    assert (∀ k, k ∈ relays.*1 → m0 !! k = None) as Hfresh0.
    { intros k Hk. apply Hfresh. by right. }
    destruct (entry_on e0) eqn:Hon.
    + assert (bind_routes relays (c0 ++ [entry_route e0]) (<[k0:=entry_route e0]> m0)
              = Routes c m
              ∧ (k0 ∈ validRelays → no_route e0 = false)) as [Hrec Hroute].
      { destruct (bool_decide (k0 ∈ validRelays)) eqn:Hvalid; simpl in Hbind.
        - destruct (no_route e0); [done|]. by split.
        - apply bool_decide_eq_false_1 in Hvalid. by split. }
      destruct (IH _ _ _ _ Hrec Hnodup (Hfresh' _)) as (Hsub & Hout & Hin).
      split; [intros r Hr; apply Hsub, elem_of_app; by left|].
      split.
      { intros k Hk. rewrite Hout by (intros ?; apply Hk; by right).
        apply lookup_insert_ne. intros <-. apply Hk. by left. }
      intros k e Hke. apply elem_of_cons in Hke as [[= -> ->]|Hke]; [|by apply Hin].
      split.
      * intros _. apply Hsub, elem_of_app. right. by left.
      * intros Hvalid. specialize (Hroute Hvalid). split; [|done].
        unfold bound. rewrite (Hout _ Hk0), lookup_insert_eq, Hon.
        unfold no_route in Hroute. by destruct (entry_route e0).
    + destruct (IH _ _ _ _ Hbind Hnodup Hfresh0) as (Hsub & Hout & Hin).
      split; [done|]. split.
      { intros k Hk. apply Hout. intros ?; apply Hk; by right. }
      intros k e Hke. apply elem_of_cons in Hke as [[= -> ->]|Hke]; [|by apply Hin].
      split; [congruence|]. intros _. split; [|congruence]. unfold bound.
      rewrite (Hout _ Hk0), Hfresh, Hon; [done|by left].
Qed.

(** X20: when start-up gets through, relayRoutes[k] != null holds for a
    relay among validRelays exactly when it is on, and then it has a
    route; the route of every relay that is on, valid or not, is among
    the routes that the handler is bound to. *)
Theorem build_routes_binds (relays : list (string * entry)) c m :
  build_routes relays = Routes c m →
  NoDup relays.*1 →
  c ≠ []
  ∧ ∀ k e, (k, e) ∈ relays →
      (entry_on e = true → entry_route e ∈ c)
      ∧ (k ∈ validRelays →
         bound m k = entry_on e ∧ (entry_on e = true → no_route e = false)).
Proof.
  intros Hbuild Hnodup. split.
  { intros ->. clear Hnodup. unfold build_routes in Hbuild.
    assert (∀ relays c0 m0, bind_routes relays c0 m0 ≠ Routes [] m) as Hne.
    { clear. induction relays as [|[k e] relays IH]; intros c0 m0; simpl.
      - destruct c0; [done|]. simpl. by intros [= ? ?].
      - repeat case_match; try done; apply IH. }
    by eapply Hne. }
  destruct (bind_routes_binds relays [] ∅ c m Hbuild Hnodup) as (_ & _ & Hin).
  { intros k _. apply lookup_empty. }
  intros k e Hke. by apply Hin.
Qed.
End StartupMore.

(** * Devices and players *)

Section ChromecastMore.
Import Js Chromecast.






(** After an advertisement under the name __proto__, its device is the
    prototype of chromecasts: cast finds it under that name, and finds
    its host under the name host. *)
Example cast_after_prototype_advertised :
  cast (advertise [("__proto__", ("192.168.0.9", 8009))]) (Some "__proto__")
  = Some (Own ("192.168.0.9", 8009))
  ∧ cast (advertise [("__proto__", ("192.168.0.9", 8009))]) (Some "host")
    = Some Inherited
  ∧ cast (advertise []) (Some "host") = None.
Proof. by vm_compute. Qed.

(** A name that players inherits from Object.prototype holds no player:
    a command of one of the four types fails on it, any other type is
    ignored. *)
Example control_on_inherited_name :
  control (serviceUp started "constructor" "192.168.0.9" 8009) (Some "constructor")
    (Cast.CommandObj (Str "PLAY") Undefined) = Cast.NotAPlayer
  ∧ control (serviceUp started "constructor" "192.168.0.9" 8009) (Some "constructor")
      (Cast.CommandObj (Str "REWIND") Undefined) = Cast.Ignored
  ∧ control started (Some "constructor") (Cast.CommandObj (Str "REWIND") Undefined)
    = Cast.Ignored.
Proof. by vm_compute. Qed.

Lemma player_set (ps : Cast.players) (name : string) (v : option unit) :
  Cast.player_of (Cast.set_player ps name v) name
  = match v with Some _ => Cast.ThePlayer | None => Cast.Falsy end.
Proof.
  unfold Cast.set_player, Cast.player_of.
  destruct (String.eqb name "__proto__") eqn:Hname; simpl.
  - apply String.eqb_eq in Hname as ->.
    destruct (Cast.held ps !! "__proto__") as [old|] eqn:Hold; simpl.
    + rewrite lookup_insert_eq. by destruct v as [[]|].
    + destruct (Cast.prototype ps); simpl.
      * rewrite Hold. by destruct v.
      * rewrite Hold. by destruct v.
      * rewrite lookup_insert_eq. by destruct v as [[]|].
  - rewrite lookup_insert_eq. by destruct v as [[]|].
Qed.

(** X22: once the client of a device reported an error, no control
    command for it gets to a player, until the next cast has launched
    one. *)
Theorem control_after_client_error (m : maps) (name : option string) (c : Cast.commandObj) :
  reaches_player (control (client_error m name) name c) = false.
Proof.
  unfold control, client_error, Cast.control. simpl. rewrite player_set.
  by destruct (Cast.device (chromecasts m) _).
Qed.

(** X23: after a cast to an advertised device has launched its player,
    PLAY, PAUSE, STOP and SEEK to an integer greater than zero get to
    that player. *)
Theorem control_after_launch (m : maps) (name : option string) (c : Cast.commandObj) :
  cast m name ≠ None →
  Cast.type c = Str "PLAY" ∨ Cast.type c = Str "PAUSE" ∨ Cast.type c = Str "STOP"
  ∨ (Cast.type c = Str "SEEK" ∧ ∃ z, Cast.currentTime c = Num (Integral z) ∧ 0 < z) →
  reaches_player (control (launched m name) name c) = true.
Proof.
  intros Hdev Hc. unfold control, launched, Cast.control. simpl. rewrite player_set.
  unfold cast in Hdev.
  destruct (Cast.device (chromecasts m) _) as [device| |]; [| |done];
    (destruct Hc as [->|[->|[->|[-> (z & -> & Hz)]]]];
     unfold Cast.PLAY, Cast.PAUSE, Cast.STOP, Cast.SEEK; simpl; [done|done|done|]);
    by rewrite (proj2 (Z.eqb_neq z 0)), (proj2 (Z.leb_le 0 z)) by lia.
Qed.

Lemma control_after_launch_witness :
  reaches_player
    (control (launched (serviceUp started "den" "192.168.0.9" 8009) (Some "den"))
       (Some "den") (Cast.CommandObj (Str "SEEK") (Num (Integral 132))))
  = true.
Proof.
  apply (control_after_launch (serviceUp started "den" "192.168.0.9" 8009) (Some "den")
           (Cast.CommandObj (Str "SEEK") (Num (Integral 132)))).
  - vm_compute. discriminate.
  - do 3 right. split; [reflexivity|]. exists 132. split; [reflexivity|lia].
Defined.
End ChromecastMore.

(** * The older variant *)

Section LegacyMore.
Import Legacy.

Lemma store_int16_id v : in_int16 v = true → store_int16 v = v.
Proof.
  unfold in_int16, store_int16, Buffer.to_int16. intros H.
  apply andb_prop in H as [H1 H2]. zbool.
  destruct (Z.lt_ge_cases v 0) as [Hneg|Hpos].
  - replace (v mod 65536) with (v + 65536)
      by (apply Z.mod_unique with (-1); lia).
    rewrite (proj2 (Z.leb_le _ _)) by lia. lia.
  - rewrite Z.mod_small by lia. rewrite (proj2 (Z.leb_gt _ _)) by lia. done.
Qed.

Lemma store_int16_fmap (arr : list Z) :
  forallb in_int16 arr = true → store_int16 <$> arr = arr.
Proof.
  induction arr as [|v arr IH]; [done|]. simpl forallb. intros H.
  apply andb_prop in H as [Hv H]. rewrite fmap_cons. by rewrite store_int16_id, IH.
Qed.

Lemma total_length (arrays : list (list Z)) (n : nat) :
  fold_left (fun total arr => (total + length arr)%nat) arrays n
  = (n + length (mjoin arrays))%nat.
Proof.
  revert n. induction arrays as [|arr arrays IH]; intros n; simpl; [lia|].
  rewrite IH, length_app. lia.
Qed.

Lemma fill_spec (arrays : list (list Z)) : ∀ (filled : list Z) (k : nat),
  forallb (forallb in_int16) arrays = true →
  fill arrays (filled ++ replicate (length (mjoin arrays) + k) 0) (length filled)
  = Returned (filled ++ mjoin arrays ++ replicate k 0).
Proof.
  induction arrays as [|arr arrays IH]; intros filled k Hrange; simpl; [done|].
  apply andb_prop in Hrange as [Harr Hrange].
  unfold set. rewrite !length_app, length_replicate.
  rewrite (proj2 (Nat.ltb_ge _ _)) by lia. simpl.
  rewrite take_app_length, store_int16_fmap by done.
  rewrite drop_app_add, drop_replicate.
  replace (length arr + length (mjoin arrays) + k - length arr)%nat
    with (length (mjoin arrays) + k)%nat by lia.
  rewrite <- length_app, (assoc_L (++) filled arr).
  rewrite IH by done. by rewrite <- !(assoc_L (++)).
Qed.

(** X24: concatenate returns the arrays one after the other, for
    arrays whose elements are 16-bit values; its set calls are all in
    range. *)
Theorem concatenate_joins (arrays : list (list Z)) :
  forallb (forallb in_int16) arrays = true →
  concatenate arrays = Returned (mjoin arrays).
Proof.
  intros Hrange. unfold concatenate. rewrite total_length. simpl.
  pose proof (fill_spec arrays [] 0 Hrange) as H. simpl in H.
  rewrite Nat.add_0_r in H. rewrite H. by rewrite (right_id_L [] (++)).
Qed.

Lemma concatenate_joins_witness :
  concatenate [[1; -2]; []; [32767; -32768; 5]] = Returned [1; -2; 32767; -32768; 5].
Proof.
  apply (concatenate_joins [[1; -2]; []; [32767; -32768; 5]]). reflexivity.
Defined.

Lemma subarray_take_drop (a : list Z) i e :
  0 ≤ i ≤ e → e ≤ Z.of_nat (length a) →
  subarray a i e = take (Z.to_nat (e - i)) (drop (Z.to_nat i) a).
Proof.
  intros Hi He. unfold subarray, index.
  rewrite !(proj2 (Z.ltb_ge _ 0)) by lia. f_equal; [lia|f_equal; lia].
Qed.

Lemma legacy_write_frames_spec (bytes : list Z) fuel : ∀ i,
  0 ≤ i → (Z.to_nat (Z.of_nat (length bytes) - i) < fuel)%nat →
  ∃ frames, write_frames fuel bytes i = Returned frames
            ∧ mjoin frames = drop (Z.to_nat i) bytes
            ∧ Forall (fun frame => 0 < Z.of_nat (length frame) ≤ 1600) frames
            ∧ ∀ before final, frames = before ++ [final] →
                Forall (fun frame => Z.of_nat (length frame) = 1600) before.
Proof.
  induction fuel as [|fuel IH]; intros i Hi Hfuel; [lia|]. simpl.
  destruct (i <? Z.of_nat (length bytes)) eqn:Hlt; zbool.
  2:{ exists []. split; [done|]. split.
      { rewrite drop_ge; [done|]. lia. }
      split; [done|]. intros before final H. by destruct before. }
  destruct (i + 1600 <? Z.of_nat (length bytes)) eqn:Hnext; zbool.
  - destruct (IH (i + 1600)) as (frames & -> & Hjoin & Hsize & Hfull); [lia|lia|].
    simpl. eexists. split; [done|].
    rewrite subarray_take_drop by lia.
    replace (Z.to_nat (i + 1600 - i)) with (Z.to_nat 1600) by lia.
    split; [|split].
    + simpl. rewrite Hjoin.
      replace (Z.to_nat (i + 1600)) with (Z.to_nat i + Z.to_nat 1600)%nat by lia.
      rewrite <- drop_drop. apply take_drop.
    + constructor; [|done]. rewrite length_take, length_drop. lia.
    + intros before final H. destruct before as [|frame before]; [done|].
      injection H as <- H. constructor; [|by eapply Hfull].
      rewrite length_take, length_drop. lia.
  - destruct fuel as [|fuel]; [lia|]. simpl.
    rewrite (proj2 (Z.ltb_ge _ _)) by lia. simpl.
    eexists. split; [done|].
    rewrite subarray_take_drop by lia.
    split; [|split].
    + simpl. rewrite (right_id_L [] (++)). apply take_ge.
      rewrite length_drop. lia.
    + constructor; [|done]. rewrite length_take, length_drop. lia.
    + intros before final H. destruct before as [|frame [|? ?]]; done.
Qed.

(** X25: the older startConversation writes the whole array in order
    in frames that are not empty and hold at most 1600 elements, every
    frame but the last holding 1600, and then 16000 zero samples, which
    is one second at 16 kHz. *)
Theorem legacy_writes_one_second (bytes : list Z) :
  ∃ frames,
    startConversation_writes (Some bytes) true = Returned (frames ++ [silence])
    ∧ mjoin frames = bytes
    ∧ Forall (fun frame => 0 < Z.of_nat (length frame) ≤ 1600) frames
    ∧ (∀ before final, frames = before ++ [final] →
         Forall (fun frame => Z.of_nat (length frame) = 1600) before)
    ∧ Z.of_nat (length silence) = 16000
    ∧ Forall (fun sample => sample = 0) silence.
Proof.
  destruct (legacy_write_frames_spec bytes (S (length bytes)) 0)
    as (frames & Hframes & Hjoin & Hsize & Hfull); [done|lia|].
  exists frames. unfold startConversation_writes. rewrite Hframes. cbn [obind].
  split; [done|]. split; [done|]. split; [done|]. split; [done|]. split.
  - unfold silence. rewrite length_replicate. lia.
  - unfold silence. by apply Forall_replicate.
Qed.
End LegacyMore.

(** * The properties above on the example configuration *)

Section RelayWitnesses.
Import Js Relay.

Lemma post_accepts_configured_key_witness :
  let req := Example.request "/broadcast" (Str "hello") "r3pl4ac3th153x4mpl3n0nc3" in
  post Example.host Example.config ∅ req = dispatch Example.host Example.config ∅ req
  ∧ status (response (post Example.host Example.config ∅ req)) ≠ 400
  ∧ status (response (post Example.host Example.config ∅ req)) ≠ 403.
Proof.
  apply (post_accepts_configured_key Example.host Example.config ∅
           (Example.request "/broadcast" (Str "hello") "r3pl4ac3th153x4mpl3n0nc3")
           "global"
           {| relayKey := "r3pl4ac3th153x4mpl3n0nc3";
              chromecastFriendlyName := Some "global" |}).
  - reflexivity.
  - by eexists.
  - by eexists.
  - reflexivity.
  - reflexivity.
  - discriminate.
  - discriminate.
  - reflexivity.
Defined.

Lemma post_casts_to_own_device_witness :
  ∃ key u, str Example.host (user (Example.seek (Num (Integral 132)))) = Some key
           ∧ users Example.config !! key = Some u
           ∧ body_relayKey (Example.seek (Num (Integral 132))) = Str (relayKey u)
           ∧ Some "global" = chromecastFriendlyName u.
Proof.
  apply (post_casts_to_own_device Example.host Example.config ∅
           (Example.seek (Num (Integral 132))) (Some "global")
           (CastControl (Some "global") (Cast.CommandObj (Str "SEEK") (Num (Integral 132))))
           Millis0).
  - apply list_elem_of_singleton. reflexivity.
  - right. eexists. reflexivity.
Defined.

Lemma post_broadcasts_configured_sound_witness :
  ∃ name sound,
    str Example.host (Str "noisy") = Some name
    ∧ broadcastAudio_sounds Example.config !! name = Some sound
    ∧ "audio/foo.lpcm16" = bs_path sound ∧ "LINEAR16" = "LINEAR16"
    ∧ Str "global" = Str "global".
Proof.
  apply (post_broadcasts_configured_sound Example.host Example.config ∅
           (Example.request "/broadcastAudio" (Str "noisy") "r3pl4ac3th153x4mpl3n0nc3")
           "audio/foo.lpcm16" (Str "global") "LINEAR16" Millis0).
  apply list_elem_of_singleton. reflexivity.
Defined.

Lemma scheduled_control_reaches_player_witness :
  Chromecast.reaches_player
    (Cast.control (Cast.Devices {[ "global" := ("192.168.0.9", 8009) ]} None)
       (Cast.Players {[ "global" := Some () ]} Cast.ObjectPrototype)
       (Some "global") (Cast.CommandObj (Str "SEEK") (Num (Integral 132))))
  = true.
Proof.
  apply (scheduled_control_reaches_player Example.host Example.config ∅
           (Example.seek (Num (Integral 132))) (Some "global")
           (Cast.CommandObj (Str "SEEK") (Num (Integral 132))) Millis0).
  - apply list_elem_of_singleton. reflexivity.
  - vm_compute. discriminate.
  - reflexivity.
Defined.

Lemma control_seeks_positive_integer_witness :
  let chromecasts := Cast.Devices {[ "global" := ("192.168.0.9", 8009) ]} None in
  let players := Cast.Players ∅ Cast.PlayerPrototype in
  Str "SEEK" = Str "SEEK" ∧ Num (Integral 132) = Num (Integral 132)
  ∧ (∃ z, Num (Integral 132) = Num (Integral z) ∧ 0 < z)
  ∧ Cast.device (Cast.add_device chromecasts "__proto__" ("192.168.0.7", 8009))
      (default "undefined" (Some "__proto__")) ≠ Missing
  ∧ Cast.player_of players (default "undefined" (Some "__proto__")) = Cast.ThePlayer.
Proof.
  intros chromecasts players.
  apply (control_seeks_positive_integer
           (Cast.add_device chromecasts "__proto__" ("192.168.0.7", 8009)) players
           (Some "__proto__") (Cast.CommandObj (Str "SEEK") (Num (Integral 132)))
           (Num (Integral 132))).
  reflexivity.
Defined.
End RelayWitnesses.

Section SessionWitnesses.
Import Buffer Audio Samples Session.

Lemma audio_data_accumulates_witness :
  let conv := Conversation 7 "global" None None false true in
  let evs := [AudioData [x01; x02]; Transcription true; AudioData [x03; x04]] in
  Session.after_events false {[ "global" ]} {[ "global" ]} conv ∅ evs !! counter conv
  = Some (default [] ((∅ : gmap Z (list byte)) !! counter conv) ++ mjoin (audio_frames evs)).
Proof.
  intros conv evs.
  apply (audio_data_accumulates false {[ "global" ]} {[ "global" ]} conv ∅ evs).
  - reflexivity.
  - discriminate.
Defined.

Lemma other_conversations_untouched_witness :
  Session.after_events false {[ "global" ]} {[ "global" ]}
    (Conversation 7 "global" None None false false) {[ 3 := [x09] ]}
    [AudioData [x01; x02]; Ended false false] !! 3
  = ({[ 3 := [x09] ]} : gmap Z (list byte)) !! 3.
Proof.
  apply (other_conversations_untouched false {[ "global" ]} {[ "global" ]}
           (Conversation 7 "global" None None false false) {[ 3 := [x09] ]}
           [AudioData [x01; x02]; Ended false false] 3).
  discriminate.
Defined.

Lemma ended_releases_buffer_witness :
  audioBuffers (Session.on_ended false {[ "global" ]} {[ "global" ]}
                  (Conversation 7 "global" None None false false)
                  {[ 7 := [x01; x02] ]} false false) !! 7 = None.
Proof.
  apply (ended_releases_buffer false {[ "global" ]} {[ "global" ]}
           (Conversation 7 "global" None None false false) {[ 7 := [x01; x02] ]} false).
  reflexivity.
Defined.

Lemma ended_broadcasts_truncated_audio_witness :
  let conv := Conversation 7 "global" None None false true in
  let audio := of_samples [900; 0; 0; 900] in
  ∃ out,
    truncateSilences audio MAX_SILENCE_LENGTH SILENCE_THRESHOLD = Returned out
    ∧ closed_runs_within_bytes SILENCE_THRESHOLD MAX_SILENCE_LENGTH out = true
    ∧ Session.on_ended true {[ "global" ]} {[ "global" ]} conv {[ 7 := audio ]} false false
      = Handled (delete 7 {[ 7 := audio ]})
          ((if true
            then [WriteFileSync ("./audio-" +:+ pretty 7 +:+ ".lpcm16") audio]
            else [])
           ++ (if MAX_BUFFER_LENGTH <? len out then []
               else [AssistantStart (BroadcastPreface "global" out AUDIO_OUT_LINEAR16)])
           ++ continue_or_end {[ "global" ]} conv false)
          (continue_throws {[ "global" ]} conv false).
Proof.
  apply (ended_broadcasts_truncated_audio true {[ "global" ]} {[ "global" ]}
           (Conversation 7 "global" None None false true)
           {[ 7 := of_samples [900; 0; 0; 900] ]} (of_samples [900; 0; 0; 900]) false).
  - reflexivity.
  - reflexivity.
  - reflexivity.
  - apply elem_of_singleton. reflexivity.
  - apply elem_of_singleton. reflexivity.
Defined.

Lemma broadcast_audio_goes_out_in_second_turn_witness :
  let r := BroadcastPreface "global" (of_samples [900; 0; 0; 900]) "LINEAR16" in
  ∃ b, Some (of_samples [900; 0; 0; 900]) = Some b ∧ len b ≤ MAX_BUFFER_LENGTH
       ∧ "global" ∈ ({[ "global" ]} : gset string)
       ∧ r = BroadcastPreface "global" b "LINEAR16"
       ∧ writes (opened 4 r).1 = Returned []
       ∧ counter (opened 9 (Continue (opened 4 r).1)).1 = 4
       ∧ ∃ frames,
           writes (opened 9 (Continue (opened 4 r).1)).1
           = Returned ((Conversation.WBuffer <$> frames)
                       ++ [Conversation.WInt16Array Conversation.silence])
           ∧ Buffer.concat frames = b
           ∧ (length frames ≤ 18)%nat.
Proof.
  apply (broadcast_audio_goes_out_in_second_turn {[ "global" ]} {[ "global" ]}
           (Some (of_samples [900; 0; 0; 900])) "global" "LINEAR16"
           (BroadcastPreface "global" (of_samples [900; 0; 0; 900]) "LINEAR16") 4 9).
  reflexivity.
Defined.
End SessionWitnesses.

Section StartupWitnesses.
Import Startup.

Lemma build_routes_binds_witness :
  let relays := [("broadcast", Entry true (Some "/broadcast"));
                 ("custom", Entry false (Some "/custom"));
                 ("bogus", Entry true None)] in
  [Some "/broadcast"; None] ≠ []
  ∧ ∀ k e, (k, e) ∈ relays →
      (entry_on e = true → entry_route e ∈ [Some "/broadcast"; None])
      ∧ (k ∈ validRelays →
         bound (<["bogus" := None]> (<["broadcast" := Some "/broadcast"]> ∅)) k = entry_on e
         ∧ (entry_on e = true → no_route e = false)).
Proof.
  apply (build_routes_binds
           [("broadcast", Entry true (Some "/broadcast"));
            ("custom", Entry false (Some "/custom"));
            ("bogus", Entry true None)]
           [Some "/broadcast"; None]
           (<["bogus" := None]> (<["broadcast" := Some "/broadcast"]> ∅))).
  - reflexivity.
  - apply (proj1 (bool_decide_eq_true _)). reflexivity.
Defined.
End StartupWitnesses.
